(** * Spatial: k-d tree base, equal iterator and facade containers

    A shallow embedding of
    - [src/bits/spatial_equal.hpp]        (module [Equal]),
    - [src/bits/spatial_kdtree_base.hpp]  (modules [Alloc] and [Base]),
    - [src/pointmap.hpp], [src/frozen_pointset.hpp] (module [Facade]),
    together with the properties of these pieces that the specification
    states. *)

From Stdlib Require Import NArith Lia Bool List.
From stdpp Require Import base option gmap.
Import ListNotations.

Local Open Scope N_scope.

(** ** Shared vocabulary *)

(** [dimension_type] is an unsigned machine integer; node addresses are
    machine addresses, [0] being the null pointer. *)
Abbreviation dimension_type := N (only parsing).
Abbreviation node_ptr := N (only parsing).

(** The tag types selecting the pruning rules of the iterators. *)
Inductive invariant_tag : Set :=
| relaxed_invariant_tag
| strict_invariant_tag.

(** A rank is a function object: calling it returns the number of axes. *)
Class RankOps (Rank : Type) := rank_call : Rank -> dimension_type.

(** Modelled from the spec: [Static_rank] and [Dynamic_rank] are declared in
    [bits/spatial_rank.hpp], which is not embedded here.  "Static
    rank stores nothing and returns a constant; dynamic rank stores a value." *)
Inductive Static_rank (n : dimension_type) : Set := mk_Static_rank.
Arguments mk_Static_rank {n}.

Record Dynamic_rank : Set := mk_Dynamic_rank { _rank : dimension_type }.

#[export] Instance Static_rank_ops n : RankOps (Static_rank n) := fun _ => n.
#[export] Instance Dynamic_rank_ops : RankOps Dynamic_rank := _rank.

(** The error kinds a call can leave with, and the two ways a call ends. *)
Inductive exn : Set :=
| InvalidRank                 (* a run-time rank of 0 *)
| AllocFailed                 (* the allocator could not serve the request *)
| UserException (code : N).   (* thrown by a user-supplied constructor *)

Inductive outcome (A : Type) : Type :=
| Returned (a : A)
| Thrown (e : exn).
Arguments Returned {A} a.
Arguments Thrown {A} e.

(** The value a default constructor [T()] builds. *)
Class DefaultCtor (T : Type) := default_ctor : T.

#[export] Instance Static_rank_default n : DefaultCtor (Static_rank n) :=
  mk_Static_rank.

(** ** The equal iterator ([bits/spatial_equal.hpp]) *)

Module Equal.
Section Equal.
Context {Rank : Type} {Rank_ops : RankOps Rank} {key_type : Type}.

(** Width in bits of [dimension_type]; its typedef lives in a header that
    is not embedded here. *)
Variable dimension_bits : N.

(** [const_key(node)]: the key stored in the node at that address. *)
Variable const_key : node_ptr -> key_type.

(** [Container::key_compare]: [cmp(dim, a, b)] is "a is strictly less than
    b along axis dim". *)
Abbreviation key_compare :=
  (dimension_type -> key_type -> key_type -> bool) (only parsing).

Record equal_key : Type := mk_equal_key
  { comp : key_compare; model : key_type }.

(** "[x] is strictly less than [y] along axis [dim]", for the comparator of
    the query. *)
Definition strictly_less (equal : equal_key) (dim : dimension_type)
    (x y : key_type) : Prop :=
  comp equal dim x y = true.

Definition right_traversal (node : node_ptr) (dim : dimension_type)
    (_ : Rank) (equal : equal_key) : bool :=
  negb (comp equal dim (model equal) (const_key node)).

(** [++i] on an unsigned integer. *)
Definition dim_incr (i : dimension_type) : dimension_type :=
  (i + 1) mod 2 ^ dimension_bits.

(** [x - 1] on an unsigned integer. *)
Definition dim_decr (x : dimension_type) : dimension_type :=
  (x + (2 ^ dimension_bits - 1)) mod 2 ^ dimension_bits.

(** The condition of the [for] loop of [stop_traversal]. *)
Definition stop_traversal_cond (node : node_ptr) (rank : Rank)
    (equal : equal_key) (i : dimension_type) : bool :=
  (i <? rank_call rank)
  && negb (comp equal i (const_key node) (model equal))
  && negb (comp equal i (model equal) (const_key node)).

(** The [for] loop itself: its body is empty, every turn runs [++i].  The
    value returned is that of [i] when the loop is left. *)
Fixpoint stop_traversal_loop (fuel : nat) (node : node_ptr) (rank : Rank)
    (equal : equal_key) (i : dimension_type) : dimension_type :=
  match fuel with
  | O => i
  | S fuel' =>
      if stop_traversal_cond node rank equal i
      then stop_traversal_loop fuel' node rank equal (dim_incr i)
      else i
  end.

(** The loop starts at [0] and is left at [rank()] at the latest, so
    [rank()] turns are all it can take (lemma [stop_traversal_loop_exit]). *)
Definition stop_traversal (node : node_ptr) (rank : Rank)
    (equal : equal_key) : bool :=
  stop_traversal_loop (N.to_nat (rank_call rank)) node rank equal 0
  =? rank_call rank.

Definition left_traversal_tag (node : node_ptr) (dim : dimension_type)
    (equal : equal_key) (tag : invariant_tag) : bool :=
  match tag with
  | relaxed_invariant_tag =>
      negb (comp equal dim (const_key node) (model equal))
  | strict_invariant_tag =>
      comp equal dim (model equal) (const_key node)
  end.

(** The overload that dispatches on
    [Container::mode_type::invariant_category]. *)
Definition left_traversal (invariant_category : invariant_tag)
    (node : node_ptr) (dim : dimension_type) (_ : Rank)
    (equal : equal_key) : bool :=
  left_traversal_tag node dim equal invariant_category.

(** *** The iterator and its two end points *)

(** The state of an [equal_iterator]: the three members of its
    [Bidirectional_iterator] base and the query. *)
Record equal_iterator : Type := mk_equal_iterator
  { rank : Rank;
    node : node_ptr;
    node_dim : dimension_type;
    _query : equal_key }.

(** What [equal_begin] and [equal_end] ask of a container. *)
Class Container (Ct : Type) := {
  ct_rank : Ct -> Rank;                   (* container.rank() *)
  key_comp : Ct -> key_compare;           (* container.key_comp() *)
  end_node : Ct -> node_ptr;              (* container.end().node *)
  empty : Ct -> bool                      (* container.empty() *)
}.

(** [container.dimension()], that is [rank()()]. *)
Definition dimension `{Container Ct} (container : Ct) : dimension_type :=
  rank_call (ct_rank container).

(** [node->parent], read from the memory the nodes live in. *)
Variable parent : node_ptr -> node_ptr.

(** [preorder_minimum] is defined in [bits/spatial_preorder.hpp], which is
    not embedded here; it returns a node and its dimension. *)
Variable preorder_minimum :
  node_ptr -> dimension_type -> Rank -> equal_key ->
  node_ptr * dimension_type.

(** The constructor taking the node and its dimension. *)
Definition equal_iterator_ctor `{Container Ct} (container : Ct)
    (model_ : key_type) (dim : dimension_type) (ptr : node_ptr)
    : equal_iterator :=
  {| rank := ct_rank container;
     node := ptr;
     node_dim := dim;
     _query := mk_equal_key (key_comp container) model_ |}.

Definition equal_end `{Container Ct} (container : Ct) (model_ : key_type)
    : equal_iterator :=
  equal_iterator_ctor container model_
    (dim_decr (dimension container)) (end_node container).

Definition equal_begin `{Container Ct} (container : Ct)
    (model_ : key_type) : equal_iterator :=
  if empty container then equal_end container model_
  else
    let parent_ := parent (end_node container) in
    let '(node_, dim) :=
      preorder_minimum parent_ 0 (ct_rank container)
        (mk_equal_key (key_comp container) model_) in
    equal_iterator_ctor container model_ dim node_.

End Equal.
End Equal.

(** ** Node creation ([Kdtree_base::create_node] and [safe_allocator]) *)

Module Alloc.

(** What the node allocator is asked to do, in the order it is asked. *)
Inductive event : Set :=
| Ev_allocate (n : N) (p : node_ptr)      (* a.allocate(n) returned p *)
| Ev_deallocate (p : node_ptr) (n : N).   (* a.deallocate(p, n) *)

(** The blocks handed out and not yet given back after a run of events. *)
Fixpoint outstanding (log : list event) (live : list node_ptr)
    : list node_ptr :=
  match log with
  | [] => live
  | Ev_allocate _ p :: log' => outstanding log' (p :: live)
  | Ev_deallocate p _ :: log' =>
      outstanding log' (List.filter (fun q => negb (q =? p)) live)
  end.

(** The number of allocation requests served in a run of events. *)
Definition allocations (log : list event) : nat :=
  length (List.filter (fun e => match e with Ev_allocate _ _ => true
                                      | Ev_deallocate _ _ => false end) log).

Section Alloc.
Context {key_type : Type}.

(** [a.allocate(1)] on the tree's node allocator: a pointer, or an
    exception. *)
Variable allocate_1 : outcome node_ptr.

(** [get_allocator().construct(p, x)]: runs the copy constructor of the key
    at [p]; it may throw. *)
Variable construct : node_ptr -> key_type -> outcome unit.

(** [safe_allocator]: the reference to the allocator is the event log, [ptr]
    is the block it guards. *)
Record safe_allocator : Set := mk_safe_allocator { ptr : node_ptr }.

Definition safe_allocator_ctor : outcome safe_allocator * list event :=
  match allocate_1 with
  | Returned p => (Returned (mk_safe_allocator p), [Ev_allocate 1 p])
  | Thrown e => (Thrown e, [])
  end.

(** [~safe_allocator() { if (ptr) { alloc.deallocate(ptr, 1); } }] *)
Definition safe_allocator_dtor (safe : safe_allocator) : list event :=
  if ptr safe =? 0 then [] else [Ev_deallocate (ptr safe) 1].

(** [release() { Link_type p = ptr; ptr = 0; return p; }] *)
Definition release (safe : safe_allocator) : node_ptr * safe_allocator :=
  (ptr safe, mk_safe_allocator 0).

(** [create_node]: the outcome of the call and the allocator events it
    caused.  [safe] goes out of scope on both ways out, so its destructor
    runs on both. *)
Definition create_node (x : key_type) : outcome node_ptr * list event :=
  match safe_allocator_ctor with
  | (Thrown e, log) => (Thrown e, log)
  | (Returned safe, log) =>
      match construct (ptr safe) x with
      | Thrown e => (Thrown e, log ++ safe_allocator_dtor safe)
      | Returned _ =>
          let '(p, safe') := release safe in
          (Returned p, log ++ safe_allocator_dtor safe')
      end
  end.

(** [get_allocator().destroy(p)]: runs the destructor of the key at [p]. *)
Variable destroy : node_ptr -> outcome unit.

(** [destroy_node]: the key is destroyed, then the node is given back. *)
Definition destroy_node (node : node_ptr) : outcome unit * list event :=
  match destroy node with
  | Thrown e => (Thrown e, [])
  | Returned _ => (Returned tt, [Ev_deallocate node 1])
  end.

End Alloc.
End Alloc.

(** ** The tree base ([bits/spatial_kdtree_base.hpp]) *)

Module Base.

(** The link part of a node and the header node.  Both are declared in
    [bits/spatial_node.hpp]; the fields are those the tree base reads and
    writes. *)
Record Node_base : Set := mk_Node_base
  { parent : node_ptr; left : node_ptr; right : node_ptr }.

Record Header_node : Set := mk_Header_node
  { links : Node_base;          (* the [Node_base] sub-object *)
    leftmost : node_ptr }.

(** The nodes [nd'] are the nodes [nd] with their left and right links:
    the same addresses, and at each address a node with the same two
    children. *)
Definition same_links (nd nd' : gmap N Node_base) : Prop :=
  dom nd' = dom nd
  /\ forall p n, nd !! p = Some n ->
       exists n', nd' !! p = Some n' /\ left n' = left n
                  /\ right n' = right n.

(** The three header members that [swap] reads and writes. *)
Inductive header_field : Set := F_parent | F_right | F_leftmost.

Definition get_field (f : header_field) (h : Header_node) : node_ptr :=
  match f with
  | F_parent => parent (links h)
  | F_right => right (links h)
  | F_leftmost => leftmost h
  end.

Definition set_field (f : header_field) (v : node_ptr) (h : Header_node)
    : Header_node :=
  match f with
  | F_parent =>
      mk_Header_node (mk_Node_base v (left (links h)) (right (links h)))
        (leftmost h)
  | F_right =>
      mk_Header_node (mk_Node_base (parent (links h)) (left (links h)) v)
        (leftmost h)
  | F_leftmost => mk_Header_node (links h) v
  end.

Section Kdtree_base.
Context {Rank Compare Node_allocator : Type}.

(** [struct Implementation : Rank]; [header] is a
    [Compress<Node_allocator, Header_node>]: the allocator is its base, the
    header node its value. *)
Record Implementation : Type := mk_Implementation
  { impl_rank : Rank;
    compare : Compare;
    header_base : Node_allocator;
    header : Header_node }.

(** A tree object: its members, and the address its header node lives at
    ([&m_impl.header()]), which is fixed for the life of the object. *)
Record Kdtree_base : Type := mk_Kdtree_base
  { header_addr : node_ptr;
    m_impl : Implementation }.

(** [Implementation::initialize] *)
Definition initialize (self : node_ptr) : Header_node :=
  mk_Header_node (mk_Node_base self self self) self.

(** [Kdtree_base(rank = Rank(), compare = Compare(), alloc = Alloc())] for
    an object whose header is placed at [self]; an argument left out is
    [None]. *)
Definition Kdtree_base_ctor `{DefaultCtor Rank} `{DefaultCtor Compare}
    `{DefaultCtor Node_allocator} (self : node_ptr) (rank : option Rank)
    (compare_ : option Compare) (alloc : option Node_allocator)
    : Kdtree_base :=
  mk_Kdtree_base self
    (mk_Implementation (default default_ctor rank)
       (default default_ctor compare_) (default default_ctor alloc)
       (initialize self)).

Definition get_header (t : Kdtree_base) : node_ptr := header_addr t.
Definition get_root (t : Kdtree_base) : node_ptr :=
  parent (links (header (m_impl t))).
Definition get_rightmost (t : Kdtree_base) : node_ptr :=
  right (links (header (m_impl t))).
Definition get_leftmost (t : Kdtree_base) : node_ptr :=
  leftmost (header (m_impl t)).
Definition get_rank (t : Kdtree_base) : Rank := impl_rank (m_impl t).
Definition get_compare (t : Kdtree_base) : Compare := compare (m_impl t).
Definition get_node_allocator (t : Kdtree_base) : Node_allocator :=
  header_base (m_impl t).

(** [empty() { return get_root() == get_header(); }] *)
Definition empty (t : Kdtree_base) : bool := get_root t =? get_header t.

(** *** [swap] *)

(** [swap] works on two tree objects and on the nodes they point to. *)
Record world : Type := mk_world
  { nodes : gmap N Node_base;
    this : Kdtree_base;
    other : Kdtree_base }.

Inductive tree_id : Set := This | Other.

Definition tree (x : tree_id) (w : world) : Kdtree_base :=
  match x with This => this w | Other => other w end.

Definition set_tree (x : tree_id) (t : Kdtree_base) (w : world) : world :=
  match x with
  | This => mk_world (nodes w) t (other w)
  | Other => mk_world (nodes w) (this w) t
  end.

(** [x.m_impl.header().f] *)
Definition load (x : tree_id) (f : header_field) (w : world) : node_ptr :=
  get_field f (header (m_impl (tree x w))).

(** [x.m_impl.header().f = v] *)
Definition store (x : tree_id) (f : header_field) (v : node_ptr) (w : world)
    : world :=
  let t := tree x w in
  let i := m_impl t in
  set_tree x
    (mk_Kdtree_base (header_addr t)
       (mk_Implementation (impl_rank i) (compare i) (header_base i)
          (set_field f v (header i)))) w.

(** [n.parent = v] on a node. *)
Definition set_parent (v : node_ptr) (n : Node_base) : Node_base :=
  mk_Node_base v (left n) (right n).

(** [p->parent = v]: [p] is the header of one of the two trees, or a node.
    A pointer to neither is dangling, and the write is lost. *)
Definition store_parent (p v : node_ptr) (w : world) : world :=
  if p =? header_addr (this w) then store This F_parent v w
  else if p =? header_addr (other w) then store Other F_parent v w
  else mk_world (alter (set_parent v) p (nodes w)) (this w) (other w).

(** [std::swap(m_impl.header().f, other.m_impl.header().f)] *)
Definition std_swap (f : header_field) (w : world) : world :=
  let a := load This f w in
  let b := load Other f w in
  store Other f a (store This f b w).

(** [x.m_impl = i], the header staying where it is. *)
Definition set_impl (x : tree_id) (i : Implementation) (w : world) : world :=
  set_tree x (mk_Kdtree_base (header_addr (tree x w)) i) w.

(** Modelled from the spec: [template_member_swap<T>::do_it] is defined in
    a header that is not embedded here; "swap exchanges the two
    trees' rank, comparator, allocator".  One definition for each of the
    three calls. *)
Definition swap_rank (w : world) : world :=
  let a := m_impl (this w) in
  let b := m_impl (other w) in
  set_impl Other
    (mk_Implementation (impl_rank a) (compare b) (header_base b) (header b))
    (set_impl This
       (mk_Implementation (impl_rank b) (compare a) (header_base a)
          (header a)) w).

Definition swap_compare (w : world) : world :=
  let a := m_impl (this w) in
  let b := m_impl (other w) in
  set_impl Other
    (mk_Implementation (impl_rank b) (compare a) (header_base b) (header b))
    (set_impl This
       (mk_Implementation (impl_rank a) (compare b) (header_base a)
          (header a)) w).

Definition swap_node_allocator (w : world) : world :=
  let a := m_impl (this w) in
  let b := m_impl (other w) in
  set_impl Other
    (mk_Implementation (impl_rank b) (compare b) (header_base a) (header b))
    (set_impl This
       (mk_Implementation (impl_rank a) (compare a) (header_base b)
          (header a)) w).

(** The [if ... else if ...] that redirects the header of an empty tree to
    the header of the other one before the pointers are swapped. *)
Definition stitch_empty (w : world) : world :=
  if load This F_parent w =? header_addr (this w) then
    let h := header_addr (other w) in
    store This F_leftmost h (store This F_right h (store This F_parent h w))
  else if load Other F_parent w =? header_addr (other w) then
    let h := header_addr (this w) in
    store Other F_leftmost h
      (store Other F_right h (store Other F_parent h w))
  else w.

(** The closing [if]s that point each root back to its new header. *)
Definition relink (x : tree_id) (w : world) : world :=
  if negb (load x F_parent w =? header_addr (tree x w))
  then store_parent (load x F_parent w) (header_addr (tree x w)) w
  else w.

(** The body of [swap] between the early return and the closing [if]s: the
    three member swaps, the redirection of an empty header and the three
    [std::swap]s. *)
Definition exchange (w : world) : world :=
  let w := swap_rank w in
  let w := swap_compare w in
  let w := swap_node_allocator w in
  let w := stitch_empty w in
  let w := std_swap F_parent w in
  let w := std_swap F_right w in
  std_swap F_leftmost w.

Definition swap (w : world) : world :=
  if empty (this w) && empty (other w) then w
  else
    let w := exchange w in
    let w := relink This w in
    relink Other w.

(** *** What the header invariant asks of a tree after [swap] *)

(** The root is a node, and its parent pointer is the header of the tree. *)
Definition root_linked (x : tree_id) (w : world) : Prop :=
  exists n, nodes w !! load x F_parent w = Some n
            /\ parent n = header_addr (tree x w).

(** The header of an empty tree: parent, right and leftmost all point to
    the header itself. *)
Definition header_stitched (x : tree_id) (w : world) : Prop :=
  forall f, load x f w = header_addr (tree x w).

Definition opposite (x : tree_id) : tree_id :=
  match x with This => Other | Other => This end.

(** *** The other members of the tree base *)

(** [Kdtree_base(const Self& other)]: the rank, the comparator and the
    allocator of [other], and a header of its own at [self]. *)
Definition Kdtree_base_copy (self : node_ptr) (other_ : Kdtree_base)
    : Kdtree_base :=
  mk_Kdtree_base self
    (mk_Implementation (get_rank other_) (get_compare other_)
       (get_node_allocator other_) (initialize self)).

(** The node of the iterators [begin()] and [end()]. *)
Definition begin (t : Kdtree_base) : node_ptr := get_leftmost t.
Definition end_ (t : Kdtree_base) : node_ptr := get_header t.

(** [get_end] and [get_begin], the accessors for the iterators: the header
    and the root. *)
Definition get_end (t : Kdtree_base) : node_ptr := get_header t.
Definition get_begin (t : Kdtree_base) : node_ptr := get_root t.

(** [destroy_all_nodes] is declared here and defined elsewhere: a member
    function, it may change the nodes and the members of the tree. *)
Variable destroy_all_nodes :
  gmap N Node_base -> Kdtree_base -> gmap N Node_base * Implementation.

(** [clear() { destroy_all_nodes(); m_impl.initialize(); }] *)
Definition clear (nd : gmap N Node_base) (t : Kdtree_base)
    : gmap N Node_base * Kdtree_base :=
  let '(nd', i) := destroy_all_nodes nd t in
  (nd',
   mk_Kdtree_base (header_addr t)
     (mk_Implementation (impl_rank i) (compare i) (header_base i)
        (initialize (header_addr t)))).

(** *** The header invariant *)

(** A tree keeps the header invariant: empty, its header points to itself;
    not empty, its root is a node that points back to the header. *)
Definition header_invariant (x : tree_id) (w : world) : Prop :=
  if empty (tree x w) then header_stitched x w else root_linked x w.

(** The left pointer of the header, the end marker. *)
Definition end_marker (x : tree_id) (w : world) : node_ptr :=
  left (links (header (m_impl (tree x w)))).

(** Two tree objects are apart: their headers are two distinct places, and
    neither is one of the nodes. *)
Definition apart (w : world) : Prop :=
  header_addr (this w) <> header_addr (other w)
  /\ nodes w !! header_addr (this w) = None
  /\ nodes w !! header_addr (other w) = None.

(** The tree [x] takes over the root of the other tree: the parent pointer
    of that root is made to point to the header of [x]. *)
Definition adopt (x : tree_id) (w : world) (nd : gmap N Node_base)
    : gmap N Node_base :=
  if empty (tree (opposite x) w) then nd
  else
    alter (set_parent (header_addr (tree x w)))
      (get_root (tree (opposite x) w)) nd.

(** The same two trees, the roles exchanged: what the call of [swap] on
    the other tree works on. *)
Definition flip (w : world) : world :=
  mk_world (nodes w) (other w) (this w).

End Kdtree_base.

Arguments Implementation : clear implicits.
Arguments Kdtree_base : clear implicits.
Arguments world : clear implicits.

End Base.

(** A tree base is a container in the sense of the equal iterator: its
    comparator is what [key_comp()] returns. *)
#[export] Instance Kdtree_base_Container {Rank key_type Node_allocator : Type}
  : Equal.Container
      (Base.Kdtree_base Rank (dimension_type -> key_type -> key_type -> bool)
         Node_allocator) :=
  {| Equal.ct_rank := Base.get_rank;
     Equal.key_comp := Base.get_compare;
     Equal.end_node := Base.get_header;
     Equal.empty := Base.empty |}.

(** ** The facade containers ([pointmap.hpp], [frozen_pointset.hpp]) *)

Module Facade.
Import Base.

(** Modelled from the spec: [except::check_rank_argument] is defined in a
    header that is not embedded here; "a runtime rank of 0 is
    rejected at construction with InvalidRank". *)
Definition check_rank_argument (dim : dimension_type) : outcome unit :=
  if dim =? 0 then Thrown InvalidRank else Returned tt.

(** A constructor: the base is built by the initialiser list, then the body
    runs; an exception leaving the body leaves no object behind. *)
Definition ctor_body {A : Type} (base : A) (body : outcome unit)
    : outcome A :=
  match body with
  | Returned _ => Returned base
  | Thrown e => Thrown e
  end.

Section Facade.
Context {Compare BalancingPolicy Alloc : Type}.
Context {Compare_default : DefaultCtor Compare}
  {BalancingPolicy_default : DefaultCtor BalancingPolicy}
  {Alloc_default : DefaultCtor Alloc}.

(** [Dynamic_rank()]: the dimension it defaults to is set in
    [bits/spatial_rank.hpp], which is not embedded here. *)
Context {Dynamic_rank_default : DefaultCtor Dynamic_rank}.

(** Modelled from the spec: the class [Kdtree] is defined in
    [bits/spatial_kdtree.hpp], which is not embedded here;
    "Construction: with rank (if dynamic), comparator, (relaxed only)
    balancing policy, allocator".  Its collaborators are those of its
    [Kdtree_base], to whose constructor the arguments go. *)
Definition Kdtree (Rank : Type) : Type := Kdtree_base Rank Compare Alloc.

Definition Kdtree_ctor {Rank : Type} `{DefaultCtor Rank} (self : node_ptr)
    (rank : option Rank) (compare_ : option Compare) (alloc : option Alloc)
    : Kdtree Rank :=
  Kdtree_base_ctor self rank compare_ alloc.

(** Modelled from the spec: the class [Relaxed_kdtree] is defined in
    [bits/spatial_relaxed_kdtree.hpp], which is not embedded here; it adds
    the balancing policy to the collaborators of the base. *)
Record Relaxed_kdtree (Rank : Type) : Type := mk_Relaxed_kdtree
  { rk_base : Kdtree_base Rank Compare Alloc;
    rk_balancing : BalancingPolicy }.
Arguments mk_Relaxed_kdtree {Rank}.
Arguments rk_base {Rank}.
Arguments rk_balancing {Rank}.

Definition Relaxed_kdtree_ctor {Rank : Type} `{DefaultCtor Rank}
    (self : node_ptr) (rank : option Rank) (compare_ : option Compare)
    (balancing : option BalancingPolicy) (alloc : option Alloc)
    : Relaxed_kdtree Rank :=
  mk_Relaxed_kdtree (Kdtree_base_ctor self rank compare_ alloc)
    (default default_ctor balancing).

(** The copy constructors of the two trees copy the elements as well; they
    are defined with their classes. *)
Variable Kdtree_copy :
  forall Rank : Type, node_ptr -> Kdtree Rank -> bool -> outcome (Kdtree Rank).
Variable Relaxed_kdtree_copy :
  forall Rank : Type,
    node_ptr -> Relaxed_kdtree Rank -> outcome (Relaxed_kdtree Rank).

(** *** [frozen_pointset<Rank, Key, Compare, Alloc>] *)

Inductive frozen_pointset_args (n : dimension_type) : Type :=
| FS_default
| FS_compare (compare_ : Compare)
| FS_compare_alloc (compare_ : Compare) (alloc : Alloc)
| FS_copy (other_ : Kdtree (Static_rank n)) (balancing : option bool).
Arguments FS_default {n}.
Arguments FS_compare {n}.
Arguments FS_compare_alloc {n}.
Arguments FS_copy {n}.

Definition frozen_pointset {n : dimension_type} (self : node_ptr)
    (args : frozen_pointset_args n) : outcome (Kdtree (Static_rank n)) :=
  match args with
  | FS_default => Returned (Kdtree_ctor self None None None)
  | FS_compare compare_ =>
      Returned (Kdtree_ctor self (Some mk_Static_rank) None None)
  | FS_compare_alloc compare_ alloc =>
      Returned
        (Kdtree_ctor self (Some mk_Static_rank) (Some compare_) (Some alloc))
  | FS_copy other_ balancing =>
      Kdtree_copy _ self other_ (default false balancing)
  end.

(** *** [frozen_pointset<0, Key, Compare, Alloc>] *)

Inductive frozen_pointset0_args : Type :=
| FS0_default
| FS0_dim (dim : dimension_type)
| FS0_dim_compare (dim : dimension_type) (compare_ : Compare)
| FS0_compare (compare_ : Compare)
| FS0_dim_compare_alloc (dim : dimension_type) (compare_ : Compare)
    (alloc : Alloc)
| FS0_compare_alloc (compare_ : Compare) (alloc : Alloc)
| FS0_copy (other_ : Kdtree Dynamic_rank) (balancing : option bool).

(** [frozen_pointset(const Compare& compare) : base_type(compare)] hands the
    base the comparator alone. *)
Definition frozen_pointset0 (self : node_ptr) (args : frozen_pointset0_args)
    : outcome (Kdtree Dynamic_rank) :=
  match args with
  | FS0_default => Returned (Kdtree_ctor self None None None)
  | FS0_dim dim =>
      Returned (Kdtree_ctor self (Some (mk_Dynamic_rank dim)) None None)
  | FS0_dim_compare dim compare_ =>
      Returned
        (Kdtree_ctor self (Some (mk_Dynamic_rank dim)) (Some compare_) None)
  | FS0_compare compare_ =>
      Returned (Kdtree_ctor self None (Some compare_) None)
  | FS0_dim_compare_alloc dim compare_ alloc =>
      Returned
        (Kdtree_ctor self (Some (mk_Dynamic_rank dim)) (Some compare_)
           (Some alloc))
  | FS0_compare_alloc compare_ alloc =>
      Returned
        (Kdtree_ctor self (Some default_ctor) (Some compare_) (Some alloc))
  | FS0_copy other_ balancing =>
      Kdtree_copy _ self other_ (default false balancing)
  end.

(** *** [pointmap<Rank, Key, Mapped, Compare, BalancingPolicy, Alloc>] *)

Inductive pointmap_args (n : dimension_type) : Type :=
| PM_default
| PM_compare (compare_ : Compare)
| PM_compare_balancing (compare_ : Compare) (balancing : BalancingPolicy)
| PM_compare_balancing_alloc (compare_ : Compare)
    (balancing : BalancingPolicy) (alloc : Alloc)
| PM_copy (other_ : Relaxed_kdtree (Static_rank n)).
Arguments PM_default {n}.
Arguments PM_compare {n}.
Arguments PM_compare_balancing {n}.
Arguments PM_compare_balancing_alloc {n}.
Arguments PM_copy {n}.

Definition pointmap {n : dimension_type} (self : node_ptr)
    (args : pointmap_args n) : outcome (Relaxed_kdtree (Static_rank n)) :=
  match args with
  | PM_default => Returned (Relaxed_kdtree_ctor self None None None None)
  | PM_compare compare_ =>
      Returned
        (Relaxed_kdtree_ctor self (Some mk_Static_rank) None None None)
  | PM_compare_balancing compare_ balancing =>
      Returned
        (Relaxed_kdtree_ctor self (Some mk_Static_rank) (Some compare_)
           (Some balancing) None)
  | PM_compare_balancing_alloc compare_ balancing alloc =>
      Returned
        (Relaxed_kdtree_ctor self (Some mk_Static_rank) (Some compare_)
           (Some balancing) (Some alloc))
  | PM_copy other_ => Relaxed_kdtree_copy _ self other_
  end.

(** *** [pointmap<0, ...>] and [runtime_pointmap<...>] *)

(** The two classes declare the same list of constructors. *)
Inductive runtime_args : Type :=
| RT_default
| RT_dim (dim : dimension_type)
| RT_dim_compare (dim : dimension_type) (compare_ : Compare)
| RT_dim_compare_policy (dim : dimension_type) (compare_ : Compare)
    (policy : BalancingPolicy)
| RT_dim_compare_policy_alloc (dim : dimension_type) (compare_ : Compare)
    (policy : BalancingPolicy) (alloc : Alloc)
| RT_compare (compare_ : Compare)
| RT_compare_policy (compare_ : Compare) (policy : BalancingPolicy)
| RT_compare_policy_alloc (compare_ : Compare) (policy : BalancingPolicy)
    (alloc : Alloc)
| RT_copy (other_ : Relaxed_kdtree Dynamic_rank).

Definition pointmap0 (self : node_ptr) (args : runtime_args)
    : outcome (Relaxed_kdtree Dynamic_rank) :=
  match args with
  | RT_default => Returned (Relaxed_kdtree_ctor self None None None None)
  | RT_dim dim =>
      ctor_body
        (Relaxed_kdtree_ctor self (Some (mk_Dynamic_rank dim)) None None None)
        (check_rank_argument dim)
  | RT_dim_compare dim compare_ =>
      ctor_body
        (Relaxed_kdtree_ctor self (Some (mk_Dynamic_rank dim))
           (Some compare_) None None)
        (check_rank_argument dim)
  | RT_dim_compare_policy dim compare_ policy =>
      ctor_body
        (Relaxed_kdtree_ctor self (Some (mk_Dynamic_rank dim))
           (Some compare_) (Some policy) None)
        (check_rank_argument dim)
  | RT_dim_compare_policy_alloc dim compare_ policy alloc =>
      ctor_body
        (Relaxed_kdtree_ctor self (Some (mk_Dynamic_rank dim))
           (Some compare_) (Some policy) (Some alloc))
        (check_rank_argument dim)
  | RT_compare compare_ =>
      Returned
        (Relaxed_kdtree_ctor self (Some default_ctor) (Some compare_) None
           None)
  | RT_compare_policy compare_ policy =>
      Returned
        (Relaxed_kdtree_ctor self (Some default_ctor) (Some compare_)
           (Some policy) None)
  | RT_compare_policy_alloc compare_ policy alloc =>
      Returned
        (Relaxed_kdtree_ctor self (Some default_ctor) (Some compare_)
           (Some policy) (Some alloc))
  | RT_copy other_ => Relaxed_kdtree_copy _ self other_
  end.

Definition runtime_pointmap (self : node_ptr) (args : runtime_args)
    : outcome (Relaxed_kdtree Dynamic_rank) :=
  match args with
  | RT_default => Returned (Relaxed_kdtree_ctor self None None None None)
  | RT_dim dim =>
      ctor_body
        (Relaxed_kdtree_ctor self (Some (mk_Dynamic_rank dim)) None None None)
        (check_rank_argument dim)
  | RT_dim_compare dim compare_ =>
      ctor_body
        (Relaxed_kdtree_ctor self (Some (mk_Dynamic_rank dim))
           (Some compare_) None None)
        (check_rank_argument dim)
  | RT_dim_compare_policy dim compare_ policy =>
      ctor_body
        (Relaxed_kdtree_ctor self (Some (mk_Dynamic_rank dim))
           (Some compare_) (Some policy) None)
        (check_rank_argument dim)
  | RT_dim_compare_policy_alloc dim compare_ policy alloc =>
      ctor_body
        (Relaxed_kdtree_ctor self (Some (mk_Dynamic_rank dim))
           (Some compare_) (Some policy) (Some alloc))
        (check_rank_argument dim)
  | RT_compare compare_ =>
      Returned
        (Relaxed_kdtree_ctor self (Some default_ctor) (Some compare_) None
           None)
  | RT_compare_policy compare_ policy =>
      Returned
        (Relaxed_kdtree_ctor self (Some default_ctor) (Some compare_)
           (Some policy) None)
  | RT_compare_policy_alloc compare_ policy alloc =>
      Returned
        (Relaxed_kdtree_ctor self (Some default_ctor) (Some compare_)
           (Some policy) (Some alloc))
  | RT_copy other_ => Relaxed_kdtree_copy _ self other_
  end.

(** *** [frozen_runtime_pointset<Key, Compare, Alloc>] *)


(** *** What a constructor is handed *)

(** The comparator, the balancing policy and the allocator a constructor of
    [pointmap<0>] or [runtime_pointmap] is handed, if it is handed one. *)
Definition runtime_args_compare (args : runtime_args) : option Compare :=
  match args with
  | RT_dim_compare _ c | RT_dim_compare_policy _ c _
  | RT_dim_compare_policy_alloc _ c _ _ | RT_compare c
  | RT_compare_policy c _ | RT_compare_policy_alloc c _ _ => Some c
  | _ => None
  end.

Definition runtime_args_policy (args : runtime_args)
    : option BalancingPolicy :=
  match args with
  | RT_dim_compare_policy _ _ b | RT_dim_compare_policy_alloc _ _ b _
  | RT_compare_policy _ b | RT_compare_policy_alloc _ b _ => Some b
  | _ => None
  end.

Definition runtime_args_alloc (args : runtime_args) : option Alloc :=
  match args with
  | RT_dim_compare_policy_alloc _ _ _ a | RT_compare_policy_alloc _ _ a =>
      Some a
  | _ => None
  end.

(** The copy constructor is the one that starts from another container. *)
Definition runtime_args_is_copy (args : runtime_args) : bool :=
  match args with RT_copy _ => true | _ => false end.

Definition frozen_pointset0_args_is_copy (args : frozen_pointset0_args)
    : bool :=
  match args with FS0_copy _ _ => true | _ => false end.

Definition frozen_pointset_args_is_copy {n : dimension_type}
    (args : frozen_pointset_args n) : bool :=
  match args with FS_copy _ _ => true | _ => false end.

Definition pointmap_args_is_copy {n : dimension_type}
    (args : pointmap_args n) : bool :=
  match args with PM_copy _ => true | _ => false end.

(** The run-time rank a constructor is handed, if it is handed one. *)
Definition runtime_args_dim (args : runtime_args) : option dimension_type :=
  match args with
  | RT_dim dim | RT_dim_compare dim _ | RT_dim_compare_policy dim _ _
  | RT_dim_compare_policy_alloc dim _ _ _ => Some dim
  | _ => None
  end.

Definition frozen_pointset0_args_dim (args : frozen_pointset0_args)
    : option dimension_type :=
  match args with
  | FS0_dim dim | FS0_dim_compare dim _ | FS0_dim_compare_alloc dim _ _ =>
      Some dim
  | _ => None
  end.

End Facade.

Arguments FS_default {Compare Alloc n}.
Arguments FS_compare {Compare Alloc n}.
Arguments FS_compare_alloc {Compare Alloc n}.
Arguments FS_copy {Compare Alloc n}.
Arguments FS0_default {Compare Alloc}.
Arguments FS0_dim {Compare Alloc}.
Arguments FS0_dim_compare {Compare Alloc}.
Arguments FS0_compare {Compare Alloc}.
Arguments FS0_dim_compare_alloc {Compare Alloc}.
Arguments FS0_compare_alloc {Compare Alloc}.
Arguments FS0_copy {Compare Alloc}.
Arguments PM_default {Compare BalancingPolicy Alloc n}.
Arguments PM_compare {Compare BalancingPolicy Alloc n}.
Arguments PM_compare_balancing {Compare BalancingPolicy Alloc n}.
Arguments PM_compare_balancing_alloc {Compare BalancingPolicy Alloc n}.
Arguments PM_copy {Compare BalancingPolicy Alloc n}.
Arguments RT_default {Compare BalancingPolicy Alloc}.
Arguments RT_dim {Compare BalancingPolicy Alloc}.
Arguments RT_dim_compare {Compare BalancingPolicy Alloc}.
Arguments RT_dim_compare_policy {Compare BalancingPolicy Alloc}.
Arguments RT_dim_compare_policy_alloc {Compare BalancingPolicy Alloc}.
Arguments RT_compare {Compare BalancingPolicy Alloc}.
Arguments RT_compare_policy {Compare BalancingPolicy Alloc}.
Arguments RT_compare_policy_alloc {Compare BalancingPolicy Alloc}.
Arguments RT_copy {Compare BalancingPolicy Alloc}.
Arguments Relaxed_kdtree : clear implicits.
Arguments mk_Relaxed_kdtree {Compare BalancingPolicy Alloc Rank}.
Arguments rk_base {Compare BalancingPolicy Alloc Rank}.
Arguments rk_balancing {Compare BalancingPolicy Alloc Rank}.

End Facade.

(** ** Sample data *)

Module Sample.

(** Points given by their coordinates, compared by the bracket-index
    comparator of the scenarios. *)
Definition point : Type := list N.

Definition bracket_less (dim : dimension_type) (x y : point) : bool :=
  nth (N.to_nat dim) x 0 <? nth (N.to_nat dim) y 0.

(** A memory with the keys of three nodes: (5,4) at 8, (5,7) at 16 and
    (2,3) elsewhere. *)
Definition sample_key (p : node_ptr) : point :=
  if p =? 8 then [5; 4] else if p =? 16 then [5; 7] else [2; 3].

(** The query for the points equivalent to (5,4). *)
Definition query_5_4 : Equal.equal_key :=
  Equal.mk_equal_key bracket_less [5; 4].

Definition rank_2 : Dynamic_rank := mk_Dynamic_rank 2.

(** An empty tree of rank 2 whose header lives at address 64. *)
Definition empty_tree : Base.Kdtree_base Dynamic_rank
    (dimension_type -> point -> point -> bool) unit :=
  Base.mk_Kdtree_base 64
    (Base.mk_Implementation rank_2 bracket_less tt (Base.initialize 64)).

(** Two empty trees that differ in rank, comparator (a label here) and
    allocator (a label too), with their headers at 10 and 20. *)
Definition two_empty_trees : Base.world Dynamic_rank N N :=
  Base.mk_world ∅
    (Base.mk_Kdtree_base 10
       (Base.mk_Implementation (mk_Dynamic_rank 2) 1 1 (Base.initialize 10)))
    (Base.mk_Kdtree_base 20
       (Base.mk_Implementation (mk_Dynamic_rank 3) 2 2 (Base.initialize 20))).

(** An empty tree at 10 and a tree at 20 with the single node 8. *)
Definition one_empty_tree : Base.world Dynamic_rank N N :=
  Base.mk_world {[ 8 := Base.mk_Node_base 20 0 0 ]}
    (Base.mk_Kdtree_base 10
       (Base.mk_Implementation (mk_Dynamic_rank 2) 1 1 (Base.initialize 10)))
    (Base.mk_Kdtree_base 20
       (Base.mk_Implementation (mk_Dynamic_rank 3) 2 2
          (Base.mk_Header_node (Base.mk_Node_base 8 20 8) 8))).

(** A tree at 10 with the root 8 and its right child 9, and a tree at 20
    with the single node 16. *)
Definition two_trees : Base.world Dynamic_rank N N :=
  Base.mk_world
    (<[ 8 := Base.mk_Node_base 10 0 9 ]>
       (<[ 9 := Base.mk_Node_base 8 0 0 ]>
          {[ 16 := Base.mk_Node_base 20 0 0 ]}))
    (Base.mk_Kdtree_base 10
       (Base.mk_Implementation (mk_Dynamic_rank 2) 1 1
          (Base.mk_Header_node (Base.mk_Node_base 8 10 9) 8)))
    (Base.mk_Kdtree_base 20
       (Base.mk_Implementation (mk_Dynamic_rank 3) 2 2
          (Base.mk_Header_node (Base.mk_Node_base 16 20 16) 16))).

(** Copy constructors that copy the collaborators and nothing else. *)
Definition plain_Kdtree_copy (Rank : Type) (self : node_ptr)
    (other_ : Base.Kdtree_base Rank N N) (balancing : bool)
    : outcome (Base.Kdtree_base Rank N N) :=
  Returned
    (Base.mk_Kdtree_base self
       (Base.mk_Implementation (Base.get_rank other_)
          (Base.get_compare other_) (Base.get_node_allocator other_)
          (Base.initialize self))).

Definition plain_Relaxed_kdtree_copy (Rank : Type) (self : node_ptr)
    (other_ : Facade.Relaxed_kdtree N N N Rank)
    : outcome (Facade.Relaxed_kdtree N N N Rank) :=
  Returned
    (Facade.mk_Relaxed_kdtree
       (Base.mk_Kdtree_base self
          (Base.mk_Implementation (Base.get_rank (Facade.rk_base other_))
             (Base.get_compare (Facade.rk_base other_))
             (Base.get_node_allocator (Facade.rk_base other_))
             (Base.initialize self)))
       (Facade.rk_balancing other_)).

(** Collaborators that are labels: the default constructor builds label 0. *)
Definition label_default : DefaultCtor N := 0.

(** Three argument lists for [pointmap<0>], the collaborators being
    labels: rank 3 and comparator 1; rank 0 and comparator 1; comparator 1
    and policy 2. *)
Definition rank_3_args : @Facade.runtime_args N N N :=
  Facade.RT_dim_compare 3 1.
Definition rank_0_args : @Facade.runtime_args N N N :=
  Facade.RT_dim_compare 0 1.
Definition policy_args : @Facade.runtime_args N N N :=
  Facade.RT_compare_policy 1 2.

End Sample.

(** * Properties *)

(** ** The equal iterator *)

Section EqualProperties.
Context {Rank : Type} {Rank_ops : RankOps Rank} {key_type : Type}.
Variable dimension_bits : N.
Variable const_key : node_ptr -> key_type.

Import Equal.

Lemma dim_incr_small (i r : dimension_type) :
  i < r -> r < 2 ^ dimension_bits -> dim_incr dimension_bits i = i + 1.
Proof.
  intros Hi Hr. unfold dim_incr. apply N.mod_small. lia.
Qed.

Lemma stop_traversal_cond_lt node (rank : Rank) equal i :
  stop_traversal_cond const_key node rank equal i = true ->
  i < rank_call rank.
Proof.
  unfold stop_traversal_cond. intros Hc.
  apply andb_true_iff in Hc as [Hc _].
  apply andb_true_iff in Hc as [Hc _].
  now apply N.ltb_lt.
Qed.

(** The loop is left with its condition false, at most at [rank()], and the
    condition held at every index it went over. *)
Lemma stop_traversal_loop_exit node (rank : Rank) equal :
  rank_call rank < 2 ^ dimension_bits ->
  forall (fuel : nat) (i : dimension_type),
    i <= rank_call rank ->
    (N.to_nat (rank_call rank - i) <= fuel)%nat ->
    let r := stop_traversal_loop dimension_bits const_key fuel node rank
               equal i in
    i <= r <= rank_call rank
    /\ stop_traversal_cond const_key node rank equal r = false
    /\ forall j, i <= j < r ->
         stop_traversal_cond const_key node rank equal j = true.
Proof.
  intros Hw fuel. induction fuel as [|fuel IH]; intros i Hi Hfuel; simpl.
  - assert (i = rank_call rank) as -> by lia.
    split; [lia | split; [| intros j Hj; lia]].
    unfold stop_traversal_cond. now rewrite N.ltb_irrefl.
  - destruct (stop_traversal_cond const_key node rank equal i) eqn:Hc.
    + pose proof (stop_traversal_cond_lt _ _ _ _ Hc) as Hlt.
      rewrite (dim_incr_small i (rank_call rank)) by assumption.
      destruct (IH (i + 1)) as (Hr & Hex & Hall); [lia | lia |].
      split; [lia | split; [exact Hex |]].
      intros j Hj. destruct (N.eq_dec j i) as [-> | Hne]; [exact Hc |].
      apply Hall. lia.
    + split; [lia | split; [exact Hc | intros j Hj; lia]].
Qed.

Lemma stop_traversal_cond_true node (rank : Rank) equal i :
  stop_traversal_cond const_key node rank equal i = true <->
  i < rank_call rank
  /\ comp equal i (const_key node) (model equal) = false
  /\ comp equal i (model equal) (const_key node) = false.
Proof.
  unfold stop_traversal_cond.
  rewrite !andb_true_iff, !negb_true_iff, N.ltb_lt. tauto.
Qed.

(** C5: at a node split on axis [dim], the right subtree may be entered
    exactly when the model is not strictly less than the key of the node on
    that axis.  The function takes no invariant tag: the rule is the same for
    the strict and the relaxed variant. *)
Theorem right_traversal_iff (node : node_ptr) (dim : dimension_type)
    (rank : Rank) (equal : equal_key) :
  right_traversal const_key node dim rank equal = true <->
  ~ strictly_less equal dim (model equal) (const_key node).
Proof.
  unfold right_traversal, strictly_less.
  rewrite negb_true_iff. now rewrite not_true_iff_false.
Qed.

(** C1, as amended: the left subtree may be entered exactly when, on the
    split axis, the model is strictly less than the key of the node (strict
    variant), or the key of the node is not strictly less than the model
    (relaxed variant). *)
Theorem left_traversal_iff (node : node_ptr) (dim : dimension_type)
    (rank : Rank) (equal : equal_key) :
  (left_traversal const_key strict_invariant_tag node dim rank equal = true
   <-> strictly_less equal dim (model equal) (const_key node))
  /\ (left_traversal const_key relaxed_invariant_tag node dim rank equal
       = true
      <-> ~ strictly_less equal dim (const_key node) (model equal)).
Proof.
  unfold left_traversal, left_traversal_tag, strictly_less. split.
  - reflexivity.
  - rewrite negb_true_iff. now rewrite not_true_iff_false.
Qed.

(** C6: the match test accepts a node exactly when, on every axis below the
    rank, neither the key of the node is less than the model nor the model
    less than the key of the node. *)
Theorem stop_traversal_iff (node : node_ptr) (rank : Rank)
    (equal : equal_key) :
  rank_call rank < 2 ^ dimension_bits ->
  stop_traversal dimension_bits const_key node rank equal = true <->
  forall a : dimension_type, a < rank_call rank ->
    ~ strictly_less equal a (const_key node) (model equal)
    /\ ~ strictly_less equal a (model equal) (const_key node).
Proof.
  intros Hw. unfold stop_traversal, strictly_less.
  destruct (stop_traversal_loop_exit node rank equal Hw
              (N.to_nat (rank_call rank)) 0) as (Hr & Hex & Hall);
    [lia | lia |].
  set (r := stop_traversal_loop _ _ _ _ _ _ _) in *.
  rewrite N.eqb_eq. split.
  - intros Heq a Ha.
    destruct (proj1 (stop_traversal_cond_true node rank equal a))
      as (_ & H1 & H2); [apply Hall; lia |].
    rewrite H1, H2. split; discriminate.
  - intros Hall'. destruct (N.eq_dec r (rank_call rank)) as [|Hne];
      [assumption | exfalso].
    assert (r < rank_call rank) as Hlt by lia.
    destruct (Hall' r Hlt) as [H1 H2].
    apply not_true_iff_false in H1, H2.
    assert (stop_traversal_cond const_key node rank equal r = true) as Hc
      by (apply stop_traversal_cond_true; auto).
    congruence.
Qed.

End EqualProperties.

(** C1, as the claim states it, fails at the node holding (5,7) for the
    model (5,4) on axis 0, where the two keys tie: the strict variant does
    not enter the left subtree although the key is not less than the model,
    and the relaxed variant enters it although the key is not greater. *)
Lemma left_traversal_claim_refuted :
  ~ ((Equal.left_traversal Sample.sample_key strict_invariant_tag 16 0
        Sample.rank_2 Sample.query_5_4 = true
      <-> ~ Equal.strictly_less Sample.query_5_4 0 (Sample.sample_key 16)
              (Equal.model Sample.query_5_4))
     /\ (Equal.left_traversal Sample.sample_key relaxed_invariant_tag 16 0
           Sample.rank_2 Sample.query_5_4 = true
         <-> Equal.strictly_less Sample.query_5_4 0
               (Equal.model Sample.query_5_4) (Sample.sample_key 16))).
Proof.
  intros [Hstrict _].
  assert (Equal.left_traversal Sample.sample_key strict_invariant_tag 16 0
            Sample.rank_2 Sample.query_5_4 = true) as Habs.
  { apply Hstrict. unfold Equal.strictly_less. vm_compute. discriminate. }
  vm_compute in Habs. discriminate.
Qed.

Lemma stop_traversal_iff_witness :
  rank_call Sample.rank_2 < 2 ^ 64
  /\ (Equal.stop_traversal 64 Sample.sample_key 8 Sample.rank_2
        Sample.query_5_4 = true <->
      forall a : dimension_type, a < rank_call Sample.rank_2 ->
        ~ Equal.strictly_less Sample.query_5_4 a (Sample.sample_key 8)
            (Equal.model Sample.query_5_4)
        /\ ~ Equal.strictly_less Sample.query_5_4 a
              (Equal.model Sample.query_5_4) (Sample.sample_key 8)).
Proof.
  split.
  - reflexivity.
  - apply (stop_traversal_iff 64 Sample.sample_key 8 Sample.rank_2
             Sample.query_5_4).
    reflexivity.
Defined.

Example stop_traversal_accepts :
  Equal.stop_traversal 64 Sample.sample_key 8 Sample.rank_2
    Sample.query_5_4 = true.
Proof. reflexivity. Qed.

Example stop_traversal_rejects :
  Equal.stop_traversal 64 Sample.sample_key 16 Sample.rank_2
    Sample.query_5_4 = false.
Proof. reflexivity. Qed.

Section EqualBeginProperties.
Context {Rank : Type} {Rank_ops : RankOps Rank} {key_type : Type}.
Context {Ct : Type}
  `{!Equal.Container (Rank := Rank) (key_type := key_type) Ct}.

Import Equal.

(** C9: on an empty container [equal_begin] returns the very iterator that
    [equal_end] returns, positioned at the header; the nodes are not looked
    at: whatever the memory ([parent]) and the descent ([preorder_minimum])
    are, the result is the same. *)
Theorem equal_begin_empty (dimension_bits : N)
    (parent parent' : node_ptr -> node_ptr)
    (preorder_minimum preorder_minimum' :
       node_ptr -> dimension_type -> Rank -> equal_key ->
       node_ptr * dimension_type)
    (container : Ct) (model_ : key_type) :
  empty container = true ->
  equal_begin dimension_bits parent preorder_minimum container model_
  = equal_end dimension_bits container model_
  /\ node (equal_begin dimension_bits parent preorder_minimum container
             model_) = end_node container
  /\ equal_begin dimension_bits parent preorder_minimum container model_
     = equal_begin dimension_bits parent' preorder_minimum' container model_.
Proof.
  intros Hempty. unfold equal_begin. rewrite Hempty.
  repeat split.
Qed.

End EqualBeginProperties.

Lemma equal_begin_empty_witness :
  Equal.empty Sample.empty_tree = true
  /\ Equal.equal_begin 64 (fun _ => 0) (fun p d _ _ => (p, d))
       Sample.empty_tree [5; 4]
     = Equal.equal_end 64 Sample.empty_tree [5; 4]
  /\ Equal.node
       (Equal.equal_begin 64 (fun _ => 0) (fun p d _ _ => (p, d))
          Sample.empty_tree [5; 4]) = Equal.end_node Sample.empty_tree
  /\ Equal.equal_begin 64 (fun _ => 0) (fun p d _ _ => (p, d))
       Sample.empty_tree [5; 4]
     = Equal.equal_begin 64 (fun _ => 8) (fun _ d _ _ => (16, d))
         Sample.empty_tree [5; 4].
Proof.
  split.
  - reflexivity.
  - apply (equal_begin_empty 64 (fun _ => 0) (fun _ => 8)
             (fun p d _ _ => (p, d)) (fun _ d _ _ => (16, d))
             Sample.empty_tree [5; 4]).
    reflexivity.
Defined.

(** ** Node creation *)

Section AllocProperties.
Context {key_type : Type}.
Variable construct : node_ptr -> key_type -> outcome unit.

Import Alloc.

Lemma remove_fresh_block (p : node_ptr) (live : list node_ptr) :
  ~ In p live -> List.filter (fun q => negb (q =? p)) live = live.
Proof.
  induction live as [|q live IH]; intros Hp; simpl; [reflexivity |].
  destruct (N.eqb_spec q p) as [-> | Hne]; simpl.
  - exfalso. apply Hp. now left.
  - f_equal. apply IH. intros Hin. apply Hp. now right.
Qed.

(** When the allocator itself throws, nothing was allocated and nothing is
    given back. *)
Lemma create_node_alloc_failed (e : exn) (x : key_type) :
  create_node (Thrown e) construct x = (Thrown e, []).
Proof. reflexivity. Qed.

(** C8: [create_node] asks the allocator for one node.  If building the key
    in it throws, the node is given back to the allocator and the exception
    leaves the call, the blocks in use being those in use before the call;
    if it succeeds, nothing is given back and the node is returned. *)
Theorem create_node_atomic (allocate_1 : outcome node_ptr) (x : key_type)
    (p : node_ptr) (live : list node_ptr) :
  allocate_1 = Returned p -> p <> 0 -> ~ In p live ->
  allocations (snd (create_node allocate_1 construct x)) = 1%nat
  /\ match construct p x with
     | Thrown e =>
         create_node allocate_1 construct x
         = (Thrown e, [Ev_allocate 1 p; Ev_deallocate p 1])
         /\ outstanding (snd (create_node allocate_1 construct x)) live
            = live
     | Returned _ =>
         create_node allocate_1 construct x = (Returned p, [Ev_allocate 1 p])
         /\ outstanding (snd (create_node allocate_1 construct x)) live
            = p :: live
     end.
Proof.
  intros -> Hnull Hfresh.
  unfold create_node, safe_allocator_ctor, safe_allocator_dtor, release.
  simpl. destruct (construct p x) as [[] | e]; simpl.
  - repeat split.
  - apply N.eqb_neq in Hnull. rewrite Hnull. simpl.
    rewrite N.eqb_refl. simpl.
    rewrite remove_fresh_block by assumption. repeat split.
Qed.

End AllocProperties.

Lemma create_node_atomic_witness :
  let construct := fun (_ : node_ptr) (_ : Sample.point) =>
                     @Thrown unit (UserException 1) in
  8 <> 0 /\ ~ In 8 [16]
  /\ Alloc.create_node (Returned 8) construct [5; 4]
     = (Thrown (UserException 1),
        [Alloc.Ev_allocate 1 8; Alloc.Ev_deallocate 8 1])
  /\ Alloc.outstanding
       (snd (Alloc.create_node (Returned 8) construct [5; 4])) [16] = [16].
Proof.
  intros construct.
  assert (8 <> 0) as Hnull by lia.
  assert (~ In 8 [16]) as Hfresh by (simpl; lia).
  split; [exact Hnull | split; [exact Hfresh |]].
  exact (proj2 (create_node_atomic construct (Returned 8) [5; 4] 8 [16]
                  eq_refl Hnull Hfresh)).
Defined.

(** ** The tree base *)

Section BaseProperties.
Context {Rank Compare Node_allocator : Type}.
Implicit Types w : Base.world Rank Compare Node_allocator.

Import Base.

Ltac open_world w :=
  destruct w as [nd [ha [ra ca aa [[pa la rta] lma]]]
                    [hb [rb cb ab [[pb lb rtb] lmb]]]].

(** A tree is empty when it leaves its constructor. *)
Lemma Kdtree_base_ctor_empty `{DefaultCtor Rank} `{DefaultCtor Compare}
    `{DefaultCtor Node_allocator} (self : node_ptr) (rank : option Rank)
    (compare_ : option Compare) (alloc : option Node_allocator) :
  empty (Kdtree_base_ctor self rank compare_ alloc) = true.
Proof. unfold empty, get_root, get_header. simpl. apply N.eqb_refl. Qed.

Lemma swap_both_empty w :
  empty (this w) && empty (other w) = true -> swap w = w.
Proof. intros Hw. unfold swap. now rewrite Hw. Qed.

(** The collaborators of a tree and the address of its header. *)
Lemma exchange_members w (x : tree_id) :
  get_rank (tree x (exchange w)) = get_rank (tree (opposite x) w)
  /\ get_compare (tree x (exchange w)) = get_compare (tree (opposite x) w)
  /\ get_node_allocator (tree x (exchange w))
     = get_node_allocator (tree (opposite x) w)
  /\ header_addr (tree x (exchange w)) = header_addr (tree x w).
Proof.
  open_world w.
  destruct x; cbv -[N.eqb];
    destruct (N.eqb_spec pa ha), (N.eqb_spec pb hb); repeat split.
Qed.

Lemma exchange_nodes w : nodes (exchange w) = nodes w.
Proof.
  open_world w.
  cbv -[N.eqb].
  destruct (N.eqb_spec pa ha), (N.eqb_spec pb hb); reflexivity.
Qed.

(** The header pointers after the exchange: those of the other tree, or the
    header's own address where the other tree was empty. *)
Lemma exchange_load w (x : tree_id) (f : header_field) :
  empty (this w) && empty (other w) = false ->
  load x f (exchange w)
  = if empty (tree (opposite x) w) then header_addr (tree x w)
    else load (opposite x) f w.
Proof.
  open_world w.
  destruct x, f; cbv -[N.eqb andb];
    destruct (N.eqb_spec pa ha), (N.eqb_spec pb hb); simpl;
    try discriminate; reflexivity.
Qed.

Lemma relink_members w (x y : tree_id) :
  get_rank (tree y (relink x w)) = get_rank (tree y w)
  /\ get_compare (tree y (relink x w)) = get_compare (tree y w)
  /\ get_node_allocator (tree y (relink x w))
     = get_node_allocator (tree y w)
  /\ header_addr (tree y (relink x w)) = header_addr (tree y w).
Proof.
  open_world w.
  destruct x, y; cbv -[N.eqb alter];
    repeat (match goal with
            | |- context [?a =? ?b] => destruct (N.eqb_spec a b); simpl
            end); repeat split.
Qed.

Lemma relink_at_header w (x : tree_id) :
  load x F_parent w = header_addr (tree x w) -> relink x w = w.
Proof.
  intros Heq. unfold relink. rewrite Heq, N.eqb_refl. reflexivity.
Qed.

Lemma relink_at_node w (x : tree_id) :
  load x F_parent w <> header_addr (tree x w) ->
  load x F_parent w <> header_addr (tree (opposite x) w) ->
  relink x w
  = mk_world
      (alter (set_parent (header_addr (tree x w))) (load x F_parent w)
         (nodes w))
      (this w) (other w).
Proof.
  intros Hown Hopp. unfold relink, store_parent.
  apply N.eqb_neq in Hown. rewrite Hown. simpl.
  destruct x; simpl in *.
  - apply N.eqb_neq in Hopp. apply N.eqb_neq in Hown.
    rewrite (proj2 (N.eqb_neq _ _) Hown), Hopp. reflexivity.
  - apply N.eqb_neq in Hopp. rewrite Hopp, Hown. reflexivity.
Qed.

(** Writing to a node leaves the two tree objects as they are. *)
Lemma load_nodes w (nd : gmap N Node_base) (x : tree_id) (f : header_field) :
  load x f (mk_world nd (this w) (other w)) = load x f w.
Proof. destruct x; reflexivity. Qed.

Lemma header_addr_nodes w (nd : gmap N Node_base) (x : tree_id) :
  header_addr (tree x (mk_world nd (this w) (other w)))
  = header_addr (tree x w).
Proof. destruct x; reflexivity. Qed.

(** Neither closing [if] of [swap] writes to a header: the pointer it
    follows is the root of a tree that was not empty. *)
Lemma relink_frame w (x y : tree_id) (f : header_field) :
  load x F_parent w = header_addr (tree x w)
  \/ load x F_parent w <> header_addr (tree (opposite x) w) ->
  load y f (relink x w) = load y f w.
Proof.
  intros [Heq | Hne].
  - now rewrite relink_at_header.
  - destruct (N.eq_dec (load x F_parent w) (header_addr (tree x w)))
      as [Heq | Hown].
    + now rewrite relink_at_header.
    + rewrite relink_at_node by assumption. apply load_nodes.
Qed.

(** Where the root pointer of a tree stands after the exchange. *)
Lemma exchange_root w (x : tree_id) :
  empty (this w) && empty (other w) = false ->
  load x F_parent (exchange w) = header_addr (tree x (exchange w))
  \/ (empty (tree (opposite x) w) = false
      /\ load x F_parent (exchange w) = get_root (tree (opposite x) w)
      /\ load x F_parent (exchange w)
         <> header_addr (tree (opposite x) (exchange w))).
Proof.
  intros Hboth. rewrite (exchange_load w x F_parent Hboth).
  destruct (exchange_members w x) as (_ & _ & _ & ->).
  destruct (exchange_members w (opposite x)) as (_ & _ & _ & ->).
  destruct (empty (tree (opposite x) w)) eqn:Hopp;
    [left; reflexivity | right].
  split; [reflexivity | split; [reflexivity |]].
  apply N.eqb_neq. exact Hopp.
Qed.

Lemma swap_members w (x : tree_id) :
  empty (this w) && empty (other w) = false ->
  get_rank (tree x (swap w)) = get_rank (tree (opposite x) w)
  /\ get_compare (tree x (swap w)) = get_compare (tree (opposite x) w)
  /\ get_node_allocator (tree x (swap w))
     = get_node_allocator (tree (opposite x) w)
  /\ header_addr (tree x (swap w)) = header_addr (tree x w).
Proof.
  intros Hboth. unfold swap. rewrite Hboth.
  destruct (relink_members (relink This (exchange w)) Other x)
    as (-> & -> & -> & ->).
  destruct (relink_members (exchange w) This x) as (-> & -> & -> & ->).
  apply exchange_members.
Qed.

Lemma swap_load w (x : tree_id) (f : header_field) :
  empty (this w) && empty (other w) = false ->
  load x f (swap w)
  = if empty (tree (opposite x) w) then header_addr (tree x w)
    else load (opposite x) f w.
Proof.
  intros Hboth. unfold swap. rewrite Hboth.
  assert (forall y g, load y g (relink This (exchange w))
                      = load y g (exchange w)) as Hthis.
  { intros y g. apply relink_frame.
    destruct (exchange_root w This Hboth) as [Heq | (_ & _ & Hne)];
      [left; exact Heq | right; exact Hne]. }
  destruct (relink_members (exchange w) This Other) as (_ & _ & _ & HhO).
  destruct (relink_members (exchange w) This This) as (_ & _ & _ & HhT).
  rewrite relink_frame.
  - rewrite Hthis. apply exchange_load. exact Hboth.
  - cbn [opposite]. rewrite Hthis, HhO, HhT.
    destruct (exchange_root w Other Hboth) as [Heq | (_ & _ & Hne)];
      [left; exact Heq | right; exact Hne].
Qed.

(** C2, as amended: when both trees are empty [swap] returns at once and
    changes nothing; otherwise each tree ends with the rank, the comparator
    and the allocator of the other one, and with the header pointers
    (parent, right, leftmost) of the other one, those of a tree that was
    empty being replaced by the address of the header that takes them. *)
Theorem swap_exchanges w :
  if empty (this w) && empty (other w) then swap w = w
  else
    forall x : tree_id,
      get_rank (tree x (swap w)) = get_rank (tree (opposite x) w)
      /\ get_compare (tree x (swap w)) = get_compare (tree (opposite x) w)
      /\ get_node_allocator (tree x (swap w))
         = get_node_allocator (tree (opposite x) w)
      /\ forall f : header_field,
           load x f (swap w)
           = if empty (tree (opposite x) w) then header_addr (tree x w)
             else load (opposite x) f w.
Proof.
  destruct (empty (this w) && empty (other w)) eqn:Hboth.
  - apply swap_both_empty. exact Hboth.
  - intros x. destruct (swap_members w x Hboth) as (Hr & Hc & Ha & _).
    split; [exact Hr | split; [exact Hc | split; [exact Ha |]]].
    intros f. apply swap_load. exact Hboth.
Qed.

(** The node that was the root of the tree that was not empty, after
    [swap]: its parent pointer is the header of the tree that was empty. *)
Lemma swap_root_node w (x : tree_id) (n : Node_base) :
  empty (tree x w) = true ->
  empty (tree (opposite x) w) = false ->
  nodes w !! get_root (tree (opposite x) w) = Some n ->
  nodes w !! header_addr (tree x w) = None ->
  nodes (swap w) !! get_root (tree (opposite x) w)
  = Some (set_parent (header_addr (tree x w)) n).
Proof.
  intros Hx Hopp Hroot Hhdr.
  assert (empty (this w) && empty (other w) = false) as Hboth.
  { destruct x; cbn [opposite tree] in Hx, Hopp; rewrite Hx, Hopp;
      reflexivity. }
  assert (get_root (tree (opposite x) w) <> header_addr (tree x w)) as Hne.
  { intros Heq. rewrite Heq, Hhdr in Hroot. discriminate. }
  pose proof (exchange_load w x F_parent Hboth) as Hlx.
  pose proof (exchange_load w (opposite x) F_parent Hboth) as Hlo.
  rewrite Hopp in Hlx.
  replace (opposite (opposite x)) with x in Hlo by (destruct x; reflexivity).
  rewrite Hx in Hlo.
  destruct (exchange_members w x) as (_ & _ & _ & Hhx).
  destruct (exchange_members w (opposite x)) as (_ & _ & _ & Hho).
  apply N.eqb_neq in Hopp as Hopp'.
  unfold swap. rewrite Hboth.
  destruct x; cbn [opposite tree] in *.
  - rewrite (relink_at_node (exchange w) This); cbn [opposite tree].
    + rewrite relink_at_header.
      * cbn [nodes]. rewrite exchange_nodes, Hlx, Hhx.
        change (load Other F_parent w) with (get_root (other w)).
        rewrite lookup_alter_eq, Hroot. reflexivity.
      * rewrite load_nodes, (header_addr_nodes _ _ Other).
        exact (eq_trans Hlo (eq_sym Hho)).
    + rewrite Hlx, Hhx. exact Hne.
    + rewrite Hlx, Hho. exact Hopp'.
  - rewrite (relink_at_header (exchange w) This).
    + rewrite (relink_at_node (exchange w) Other); cbn [opposite tree].
      * cbn [nodes]. rewrite exchange_nodes, Hlx, Hhx.
        change (load This F_parent w) with (get_root (this w)).
        rewrite lookup_alter_eq, Hroot. reflexivity.
      * rewrite Hlx, Hhx. exact Hne.
      * rewrite Hlx, Hho. exact Hopp'.
    + exact (eq_trans Hlo (eq_sym Hho)).
Qed.

(** C7: after [swap] of an empty tree [x] and a tree that is not empty, the
    root of [x] is the node that was the root of the other tree and its
    parent pointer is the header of [x]; the header of the other tree has
    parent, right and leftmost pointing to itself; [empty()] is false
    for [x] and true for the other tree. *)
Theorem swap_one_empty w (x : tree_id) (n : Node_base) :
  empty (tree x w) = true ->
  empty (tree (opposite x) w) = false ->
  nodes w !! get_root (tree (opposite x) w) = Some n ->
  nodes w !! header_addr (tree x w) = None ->
  root_linked x (swap w)
  /\ header_stitched (opposite x) (swap w)
  /\ empty (tree x (swap w)) = false
  /\ empty (tree (opposite x) (swap w)) = true.
Proof.
  intros Hx Hopp Hroot Hhdr.
  assert (empty (this w) && empty (other w) = false) as Hboth.
  { destruct x; cbn [opposite tree] in Hx, Hopp; rewrite Hx, Hopp;
      reflexivity. }
  assert (get_root (tree (opposite x) w) <> header_addr (tree x w)) as Hne.
  { intros Heq. rewrite Heq, Hhdr in Hroot. discriminate. }
  destruct (swap_members w x Hboth) as (_ & _ & _ & Hhx).
  destruct (swap_members w (opposite x) Hboth) as (_ & _ & _ & Hho).
  assert (load x F_parent (swap w) = get_root (tree (opposite x) w)) as Hlx.
  { rewrite swap_load by exact Hboth. rewrite Hopp. reflexivity. }
  assert (forall f, load (opposite x) f (swap w)
                    = header_addr (tree (opposite x) w)) as Hlo.
  { intros f. rewrite swap_load by exact Hboth.
    replace (opposite (opposite x)) with x by (destruct x; reflexivity).
    rewrite Hx. reflexivity. }
  split; [| split; [| split]].
  - exists (set_parent (header_addr (tree x w)) n).
    rewrite Hlx, Hhx. split; [| reflexivity].
    apply swap_root_node; assumption.
  - intros f. rewrite Hlo, Hho. reflexivity.
  - change (empty (tree x (swap w)))
      with (load x F_parent (swap w) =? header_addr (tree x (swap w))).
    rewrite Hlx, Hhx. apply N.eqb_neq. exact Hne.
  - change (empty (tree (opposite x) (swap w)))
      with (load (opposite x) F_parent (swap w)
            =? header_addr (tree (opposite x) (swap w))).
    rewrite Hlo, Hho. apply N.eqb_refl.
Qed.

End BaseProperties.

(** C2, as the claim states it, fails on two empty trees: after [swap] the
    first tree still has its own comparator and its own allocator. *)
Lemma swap_claim_refuted :
  ~ (Base.get_compare (Base.this (Base.swap Sample.two_empty_trees))
     = Base.get_compare (Base.other Sample.two_empty_trees)
     /\ Base.get_node_allocator
          (Base.this (Base.swap Sample.two_empty_trees))
        = Base.get_node_allocator (Base.other Sample.two_empty_trees)).
Proof. vm_compute. intros [Hc _]. discriminate. Qed.

Example swap_two_empty_unchanged :
  Base.swap Sample.two_empty_trees = Sample.two_empty_trees.
Proof. reflexivity. Qed.

(** After the swap the node 8 hangs under the header at 10. *)
Example swap_one_empty_nodes :
  Base.nodes (Base.swap Sample.one_empty_tree) !! 8
  = Some (Base.mk_Node_base 10 0 0)
  /\ Base.get_root (Base.this (Base.swap Sample.one_empty_tree)) = 8
  /\ Base.get_root (Base.other (Base.swap Sample.one_empty_tree)) = 20
  /\ Base.get_compare (Base.this (Base.swap Sample.one_empty_tree)) = 2.
Proof. vm_compute. repeat split. Qed.

Lemma swap_one_empty_witness :
  Base.empty (Base.tree Base.This Sample.one_empty_tree) = true
  /\ Base.empty (Base.tree Base.Other Sample.one_empty_tree) = false
  /\ Base.root_linked Base.This (Base.swap Sample.one_empty_tree)
  /\ Base.header_stitched Base.Other (Base.swap Sample.one_empty_tree)
  /\ Base.empty (Base.tree Base.This (Base.swap Sample.one_empty_tree))
     = false
  /\ Base.empty (Base.tree Base.Other (Base.swap Sample.one_empty_tree))
     = true.
Proof.
  split; [reflexivity | split; [reflexivity |]].
  apply (swap_one_empty Sample.one_empty_tree Base.This
           (Base.mk_Node_base 20 0 0)); reflexivity.
Defined.

(** ** The facade containers *)

Section FacadeProperties.
Context {Compare BalancingPolicy Alloc : Type}.
Context {Compare_default : DefaultCtor Compare}
  {BalancingPolicy_default : DefaultCtor BalancingPolicy}
  {Alloc_default : DefaultCtor Alloc}
  {Dynamic_rank_default : DefaultCtor Dynamic_rank}.
Variable Kdtree_copy :
  forall Rank : Type,
    node_ptr -> Base.Kdtree_base Rank Compare Alloc -> bool ->
    outcome (Base.Kdtree_base Rank Compare Alloc).
Variable Relaxed_kdtree_copy :
  forall Rank : Type,
    node_ptr -> Facade.Relaxed_kdtree Compare BalancingPolicy Alloc Rank ->
    outcome (Facade.Relaxed_kdtree Compare BalancingPolicy Alloc Rank).

Import Base Facade.

(** The constructors that do hand the comparator on store it. *)
Lemma siblings_forward_compare (n : dimension_type) (self : node_ptr)
    (c : Compare) (b : BalancingPolicy) (a : Alloc) :
  frozen_pointset (n := n) Kdtree_copy self (FS_compare_alloc c a)
  = Returned (Kdtree_ctor self (Some mk_Static_rank) (Some c) (Some a))
  /\ get_compare (Kdtree_ctor (Rank := Static_rank n) self
                    (Some mk_Static_rank) (Some c) (Some a)) = c
  /\ (exists t, pointmap (n := n) Relaxed_kdtree_copy self
                  (PM_compare_balancing c b) = Returned t
                /\ get_compare (rk_base t) = c)
  /\ (exists t, frozen_pointset0 Kdtree_copy self (FS0_compare c)
                = Returned t
                /\ get_compare t = c)
  /\ (exists t, pointmap0 Relaxed_kdtree_copy self (RT_compare c)
                = Returned t
                /\ get_compare (rk_base t) = c).
Proof.
  split; [reflexivity | split; [reflexivity |]].
  repeat split; eexists; split; reflexivity.
Qed.

(** C3 (the code departs from the claim): the constructors of
    [frozen_pointset] and of [pointmap] that take the comparator alone do
    not hand it to the tree, which stores the default-constructed comparator
    whatever the argument is. *)
Theorem compare_not_forwarded (n : dimension_type) (self : node_ptr)
    (c : Compare) :
  (exists t, frozen_pointset (n := n) Kdtree_copy self (FS_compare c)
             = Returned t
             /\ get_compare t = default_ctor)
  /\ (exists t, pointmap (n := n) Relaxed_kdtree_copy self (PM_compare c)
                = Returned t
                /\ get_compare (rk_base t) = default_ctor).
Proof. split; eexists; split; reflexivity. Qed.

(** The constructors of [pointmap<0>] and of [runtime_pointmap] that take a
    rank reject the rank 0. *)
Lemma runtime_pointmap_rejects_rank_0 (self : node_ptr)
    (args : runtime_args) :
  runtime_args_dim args = Some 0 ->
  pointmap0 Relaxed_kdtree_copy self args = Thrown InvalidRank
  /\ runtime_pointmap Relaxed_kdtree_copy self args = Thrown InvalidRank.
Proof.
  destruct args; simpl; intros Hdim; try discriminate;
    injection Hdim as ->; split; reflexivity.
Qed.

(** C4 (the code departs from the claim): the three constructors of
    [frozen_pointset<0>] that take a rank build a container of rank 0 when
    they are handed 0; no exception leaves them. *)
Theorem frozen_pointset0_accepts_rank_0 (self : node_ptr) (c : Compare)
    (a : Alloc) :
  (exists t, frozen_pointset0 Kdtree_copy self (FS0_dim 0) = Returned t
             /\ rank_call (get_rank t) = 0)
  /\ (exists t, frozen_pointset0 Kdtree_copy self (FS0_dim_compare 0 c)
                = Returned t
                /\ rank_call (get_rank t) = 0)
  /\ (exists t, frozen_pointset0 Kdtree_copy self
                  (FS0_dim_compare_alloc 0 c a) = Returned t
                /\ rank_call (get_rank t) = 0).
Proof. repeat split; eexists; split; reflexivity. Qed.

(** C10: [pointmap<0, ...>] and [runtime_pointmap<...>] build the same
    container from the same arguments, and fail alike: constructor by
    constructor, the same arguments go to the same base and the same rank
    check runs. *)
Theorem pointmap0_runtime_pointmap (self : node_ptr) (args : runtime_args) :
  pointmap0 Relaxed_kdtree_copy self args
  = runtime_pointmap Relaxed_kdtree_copy self args.
Proof. destruct args; reflexivity. Qed.

End FacadeProperties.

(** With labels for comparators, the comparator 1 handed to
    [frozen_pointset<2>] or to [pointmap<2>] is lost: the tree holds 0. *)
Example compare_lost :
  (exists t, Facade.frozen_pointset (n := 2)
               (Compare_default := Sample.label_default)
               (Alloc_default := Sample.label_default)
               Sample.plain_Kdtree_copy 64
               (Facade.FS_compare 1) = Returned t
             /\ Base.get_compare t <> 1)
  /\ (exists t, Facade.pointmap (n := 2)
                  (Compare_default := Sample.label_default)
                  (BalancingPolicy_default := Sample.label_default)
                  (Alloc_default := Sample.label_default)
                  Sample.plain_Relaxed_kdtree_copy 64
                  (Facade.PM_compare 1) = Returned t
                /\ Base.get_compare (Facade.rk_base t) <> 1).
Proof. split; eexists; (split; [reflexivity | vm_compute; discriminate]). Qed.

(** With labels for the collaborators and a default dimension of 1: the
    rank 0 is taken by [frozen_pointset<0>] and refused by [pointmap<0>] and
    by [runtime_pointmap]. *)
Example rank_0_at_construction :
  (exists t, Facade.frozen_pointset0
               (Compare_default := Sample.label_default)
               (Alloc_default := Sample.label_default)
               (Dynamic_rank_default := mk_Dynamic_rank 1)
               Sample.plain_Kdtree_copy 64 (Facade.FS0_dim 0) = Returned t
             /\ rank_call (Base.get_rank t) = 0)
  /\ Facade.pointmap0
       (Compare_default := Sample.label_default)
       (BalancingPolicy_default := Sample.label_default)
       (Alloc_default := Sample.label_default)
       (Dynamic_rank_default := mk_Dynamic_rank 1)
       Sample.plain_Relaxed_kdtree_copy 64 (Facade.RT_dim 0)
     = Thrown InvalidRank
  /\ Facade.runtime_pointmap
       (Compare_default := Sample.label_default)
       (BalancingPolicy_default := Sample.label_default)
       (Alloc_default := Sample.label_default)
       (Dynamic_rank_default := mk_Dynamic_rank 1)
       Sample.plain_Relaxed_kdtree_copy 64 (Facade.RT_dim 0)
     = Thrown InvalidRank.
Proof. split; [eexists; split; reflexivity | split; reflexivity]. Qed.

(** * Further properties *)

(** ** Pruning and matching in the equal iterator *)

Section EqualPruning.
Context {Rank : Type} {Rank_ops : RankOps Rank} {key_type : Type}.
Variable dimension_bits : N.
Variable const_key : node_ptr -> key_type.

Import Equal.

(** X1: in the strict variant the two pruning rules are complementary: at
    every node and on every axis exactly one of the two subtrees is
    entered. *)
Theorem strict_traversal_exclusive (node : node_ptr) (dim : dimension_type)
    (rank : Rank) (equal : equal_key) :
  left_traversal const_key strict_invariant_tag node dim rank equal
  = negb (right_traversal const_key node dim rank equal).
Proof.
  unfold left_traversal, left_traversal_tag, right_traversal.
  now rewrite negb_involutive.
Qed.

(** X2: with a comparator that is asymmetric on the axis, the relaxed
    variant enters the left subtree wherever the strict one does, and never
    prunes both subtrees of a node. *)
Theorem relaxed_traversal_covers (node : node_ptr) (dim : dimension_type)
    (rank : Rank) (equal : equal_key) :
  (forall x y, comp equal dim x y = true -> comp equal dim y x = false) ->
  (left_traversal const_key strict_invariant_tag node dim rank equal = true
   -> left_traversal const_key relaxed_invariant_tag node dim rank equal
      = true)
  /\ left_traversal const_key relaxed_invariant_tag node dim rank equal
     || right_traversal const_key node dim rank equal = true.
Proof.
  intros Hasym.
  unfold left_traversal, left_traversal_tag, right_traversal. split.
  - intros Hlt. now rewrite (Hasym _ _ Hlt).
  - destruct (comp equal dim (const_key node) (model equal)) eqn:Hkm;
      [| reflexivity].
    now rewrite (Hasym _ _ Hkm).
Qed.

(** The match test, read both ways. *)
Lemma stop_traversal_agree (node : node_ptr) (rank : Rank)
    (equal : equal_key) :
  rank_call rank < 2 ^ dimension_bits ->
  stop_traversal dimension_bits const_key node rank equal = true <->
  forall a, a < rank_call rank ->
    comp equal a (const_key node) (model equal) = false
    /\ comp equal a (model equal) (const_key node) = false.
Proof.
  intros Hw. unfold stop_traversal.
  destruct (stop_traversal_loop_exit dimension_bits const_key node rank
              equal Hw (N.to_nat (rank_call rank)) 0)
    as (Hr & Hex & Hall); [lia | lia |].
  set (r := stop_traversal_loop _ _ _ _ _ _ _) in *.
  rewrite N.eqb_eq. split.
  - intros Heq a Ha.
    apply (stop_traversal_cond_true const_key node rank equal a).
    apply Hall. lia.
  - intros Hagree. destruct (N.eq_dec r (rank_call rank)) as [|Hne];
      [assumption | exfalso].
    assert (r < rank_call rank) as Hlt by lia.
    assert (stop_traversal_cond const_key node rank equal r = true) as Hc.
    { apply stop_traversal_cond_true. split; [exact Hlt |].
      apply Hagree. exact Hlt. }
    congruence.
Qed.

(** X3: at a node that matches the model, on every axis below the rank,
    the right subtree is entered, the left subtree is entered in the relaxed
    variant and is not in the strict variant. *)
Theorem traversal_at_match (node : node_ptr) (rank : Rank)
    (equal : equal_key) (a : dimension_type) :
  rank_call rank < 2 ^ dimension_bits ->
  stop_traversal dimension_bits const_key node rank equal = true ->
  a < rank_call rank ->
  right_traversal const_key node a rank equal = true
  /\ left_traversal const_key relaxed_invariant_tag node a rank equal = true
  /\ left_traversal const_key strict_invariant_tag node a rank equal = false.
Proof.
  intros Hw Hstop Ha.
  destruct (proj1 (stop_traversal_agree node rank equal Hw) Hstop a Ha)
    as [Hkm Hmk].
  unfold right_traversal, left_traversal, left_traversal_tag.
  rewrite Hkm, Hmk. repeat split.
Qed.

Lemma stop_traversal_loop_ext (fuel : nat) (n1 n2 : node_ptr) (rank : Rank)
    (q1 q2 : equal_key) :
  (forall i, stop_traversal_cond const_key n1 rank q1 i
             = stop_traversal_cond const_key n2 rank q2 i) ->
  forall i,
    stop_traversal_loop dimension_bits const_key fuel n1 rank q1 i
    = stop_traversal_loop dimension_bits const_key fuel n2 rank q2 i.
Proof.
  intros Hcond. induction fuel as [|fuel IH]; intros i; simpl.
  - reflexivity.
  - rewrite Hcond. destruct (stop_traversal_cond const_key n2 rank q2 i).
    + apply IH.
    + reflexivity.
Qed.

(** X4: the match test is symmetric: looking at the node [n1] for the key
    of [n2] answers what looking at [n2] for the key of [n1] answers. *)
Theorem stop_traversal_symmetric (cmp : dimension_type -> key_type ->
    key_type -> bool) (n1 n2 : node_ptr) (rank : Rank) :
  stop_traversal dimension_bits const_key n1 rank
    (mk_equal_key cmp (const_key n2))
  = stop_traversal dimension_bits const_key n2 rank
      (mk_equal_key cmp (const_key n1)).
Proof.
  unfold stop_traversal. f_equal.
  apply stop_traversal_loop_ext. intros i.
  unfold stop_traversal_cond. simpl.
  destruct (i <? rank_call rank), (cmp i (const_key n1) (const_key n2)),
    (cmp i (const_key n2) (const_key n1)); reflexivity.
Qed.


(** X6: when the match test rejects a node, its loop has stopped at the
    first axis on which the comparator tells the key of the node and the
    model apart, without looking at the axes after it. *)
Theorem stop_traversal_first_difference (node : node_ptr) (rank : Rank)
    (equal : equal_key) :
  rank_call rank < 2 ^ dimension_bits ->
  stop_traversal dimension_bits const_key node rank equal = false ->
  exists i,
    stop_traversal_loop dimension_bits const_key
      (N.to_nat (rank_call rank)) node rank equal 0 = i
    /\ i < rank_call rank
    /\ (comp equal i (const_key node) (model equal) = true
        \/ comp equal i (model equal) (const_key node) = true)
    /\ forall j, j < i ->
         comp equal j (const_key node) (model equal) = false
         /\ comp equal j (model equal) (const_key node) = false.
Proof.
  intros Hw Hstop. unfold stop_traversal in Hstop.
  destruct (stop_traversal_loop_exit dimension_bits const_key node rank
              equal Hw (N.to_nat (rank_call rank)) 0)
    as (Hr & Hex & Hall); [lia | lia |].
  set (r := stop_traversal_loop _ _ _ _ _ _ _) in *.
  apply N.eqb_neq in Hstop.
  exists r. split; [reflexivity |].
  assert (r < rank_call rank) as Hlt by lia.
  split; [exact Hlt | split].
  - unfold stop_traversal_cond in Hex.
    apply N.ltb_lt in Hlt. rewrite Hlt in Hex. simpl in Hex.
    destruct (comp equal r (const_key node) (model equal));
      [now left | right].
    simpl in Hex. now apply negb_false_iff in Hex.
  - intros j Hj.
    apply (stop_traversal_cond_true const_key node rank equal j).
    apply Hall. lia.
Qed.

End EqualPruning.

Section EqualEndProperties.
Context {Rank : Type} {Rank_ops : RankOps Rank} {key_type : Type}.
Context {Ct : Type}
  `{!Equal.Container (Rank := Rank) (key_type := key_type) Ct}.

Import Equal.

(** X7: [equal_end] gives the header the dimension [rank - 1], the last
    axis of the container; with rank 0 the subtraction wraps to the largest
    value of [dimension_type], which is no axis at all. *)
Theorem equal_end_dimension (dimension_bits : N) (container : Ct)
    (model_ : key_type) :
  dimension container < 2 ^ dimension_bits ->
  node_dim (equal_end dimension_bits container model_)
  = (if dimension container =? 0 then 2 ^ dimension_bits - 1
     else dimension container - 1)
  /\ (dimension container <> 0 ->
      node_dim (equal_end dimension_bits container model_)
      < dimension container).
Proof.
  intros Hw. unfold equal_end, equal_iterator_ctor. simpl.
  unfold dim_decr.
  assert (0 < 2 ^ dimension_bits) as Hpos by lia.
  destruct (N.eqb_spec (dimension container) 0) as [Hz | Hnz].
  - rewrite Hz. simpl (0 + _).
    rewrite (N.mod_small (2 ^ dimension_bits - 1)) by lia.
    split; [reflexivity | intros Habs; now elim Habs].
  - assert ((dimension container + (2 ^ dimension_bits - 1))
            mod 2 ^ dimension_bits = dimension container - 1) as Hdecr.
    { symmetry. apply (N.mod_unique _ _ 1); lia. }
    rewrite Hdecr. split; [reflexivity | intros _; lia].
Qed.

End EqualEndProperties.

Lemma relaxed_traversal_covers_witness :
  (forall x y, Equal.comp Sample.query_5_4 0 x y = true ->
               Equal.comp Sample.query_5_4 0 y x = false)
  /\ Equal.left_traversal Sample.sample_key relaxed_invariant_tag 16 0
       Sample.rank_2 Sample.query_5_4
     || Equal.right_traversal Sample.sample_key 16 0 Sample.rank_2
          Sample.query_5_4 = true.
Proof.
  assert (forall x y, Equal.comp Sample.query_5_4 0 x y = true ->
                      Equal.comp Sample.query_5_4 0 y x = false) as Hasym.
  { intros x y. simpl. unfold Sample.bracket_less.
    rewrite N.ltb_lt, N.ltb_ge. lia. }
  split; [exact Hasym |].
  exact (proj2 (relaxed_traversal_covers Sample.sample_key 16 0
                  Sample.rank_2 Sample.query_5_4 Hasym)).
Defined.

Lemma traversal_at_match_witness :
  rank_call Sample.rank_2 < 2 ^ 64
  /\ Equal.stop_traversal 64 Sample.sample_key 8 Sample.rank_2
       Sample.query_5_4 = true
  /\ 1 < rank_call Sample.rank_2
  /\ Equal.right_traversal Sample.sample_key 8 1 Sample.rank_2
       Sample.query_5_4 = true
  /\ Equal.left_traversal Sample.sample_key relaxed_invariant_tag 8 1
       Sample.rank_2 Sample.query_5_4 = true
  /\ Equal.left_traversal Sample.sample_key strict_invariant_tag 8 1
       Sample.rank_2 Sample.query_5_4 = false.
Proof.
  split; [reflexivity | split; [reflexivity | split; [reflexivity |]]].
  apply (traversal_at_match 64 Sample.sample_key 8 Sample.rank_2
           Sample.query_5_4 1); reflexivity.
Defined.


Lemma stop_traversal_first_difference_witness :
  rank_call Sample.rank_2 < 2 ^ 64
  /\ Equal.stop_traversal 64 Sample.sample_key 16 Sample.rank_2
       Sample.query_5_4 = false
  /\ exists i,
       Equal.stop_traversal_loop 64 Sample.sample_key
         (N.to_nat (rank_call Sample.rank_2)) 16 Sample.rank_2
         Sample.query_5_4 0 = i
       /\ i < rank_call Sample.rank_2
       /\ (Equal.comp Sample.query_5_4 i (Sample.sample_key 16)
             (Equal.model Sample.query_5_4) = true
           \/ Equal.comp Sample.query_5_4 i (Equal.model Sample.query_5_4)
                (Sample.sample_key 16) = true)
       /\ forall j, j < i ->
            Equal.comp Sample.query_5_4 j (Sample.sample_key 16)
              (Equal.model Sample.query_5_4) = false
            /\ Equal.comp Sample.query_5_4 j (Equal.model Sample.query_5_4)
                 (Sample.sample_key 16) = false.
Proof.
  split; [reflexivity | split; [reflexivity |]].
  apply (stop_traversal_first_difference 64 Sample.sample_key 16
           Sample.rank_2 Sample.query_5_4); reflexivity.
Defined.

Lemma equal_end_dimension_witness :
  Equal.dimension Sample.empty_tree < 2 ^ 64
  /\ Equal.node_dim (Equal.equal_end 64 Sample.empty_tree [5; 4]) = 1.
Proof.
  split; [reflexivity |].
  exact (proj1 (equal_end_dimension 64 Sample.empty_tree [5; 4] eq_refl)).
Defined.

(** ** Node creation and destruction *)

Section AllocFurther.
Context {key_type : Type}.
Variable allocate_1 : outcome node_ptr.
Variable construct : node_ptr -> key_type -> outcome unit.
Variable destroy : node_ptr -> outcome unit.

Import Alloc.

(** X8: whatever the allocator and the constructor of the key do,
    [create_node] asks for at most one node, and gives a block back only
    when the constructor has thrown: the block is then the one just
    allocated, it is not null, and the exception leaves the call. *)
Theorem create_node_deallocates_on_failure_only (x : key_type) :
  (allocations (snd (create_node allocate_1 construct x)) <= 1)%nat
  /\ forall p n,
       In (Ev_deallocate p n) (snd (create_node allocate_1 construct x)) ->
       p <> 0 /\ n = 1 /\ allocate_1 = Returned p
       /\ exists e, construct p x = Thrown e
                    /\ fst (create_node allocate_1 construct x) = Thrown e.
Proof.
  unfold create_node, safe_allocator_ctor, safe_allocator_dtor, release,
    allocations.
  destruct allocate_1 as [q | e]; simpl.
  - destruct (construct q x) as [[] | e] eqn:Hc; simpl.
    + split; [lia |]. intros p n [Habs | []]. discriminate.
    + destruct (N.eqb_spec q 0) as [-> | Hq]; simpl.
      * split; [lia |]. intros p n [Habs | []]. discriminate.
      * split; [lia |]. intros p n [Habs | [Hin | []]];
          [discriminate |].
        injection Hin as <- <-.
        repeat split; [exact Hq |]. exists e. split; [exact Hc | reflexivity].
  - split; [lia |]. intros p n [].
Qed.

(** X9: a node that [create_node] has returned and that [destroy_node]
    then destroys leaves the allocator with the blocks it had out before. *)
Theorem create_destroy_round_trip (x : key_type) (p : node_ptr)
    (live : list node_ptr) :
  allocate_1 = Returned p -> ~ In p live ->
  construct p x = Returned tt -> destroy p = Returned tt ->
  fst (create_node allocate_1 construct x) = Returned p
  /\ fst (destroy_node destroy p) = Returned tt
  /\ outstanding (snd (create_node allocate_1 construct x)
                  ++ snd (destroy_node destroy p)) live = live.
Proof.
  intros Ha Hfresh Hc Hd.
  unfold create_node, safe_allocator_ctor, safe_allocator_dtor, release,
    destroy_node.
  rewrite Ha. simpl. rewrite Hc, Hd. simpl.
  rewrite N.eqb_refl. simpl.
  rewrite remove_fresh_block by assumption. repeat split.
Qed.

End AllocFurther.

Lemma create_destroy_round_trip_witness :
  let construct := fun (_ : node_ptr) (_ : Sample.point) => Returned tt in
  let destroy := fun _ : node_ptr => Returned tt in
  ~ In 8 [16]
  /\ fst (Alloc.create_node (Returned 8) construct [5; 4]) = Returned 8
  /\ fst (Alloc.destroy_node destroy 8) = Returned tt
  /\ Alloc.outstanding
       (snd (Alloc.create_node (Returned 8) construct [5; 4])
        ++ snd (Alloc.destroy_node destroy 8)) [16] = [16].
Proof.
  intros construct destroy.
  assert (~ In 8 [16]) as Hfresh by (simpl; lia).
  split; [exact Hfresh |].
  exact (create_destroy_round_trip (Returned 8) construct destroy [5; 4] 8
           [16] eq_refl Hfresh eq_refl eq_refl).
Defined.

(** ** More on the tree base *)

Section BaseFurther.
Context {Rank Compare Node_allocator : Type}.
Implicit Types w : Base.world Rank Compare Node_allocator.
Implicit Types t : Base.Kdtree_base Rank Compare Node_allocator.

Import Base.

Ltac split_world w :=
  destruct w as [nd [ha [ra ca aa [[pa la rta] lma]]]
                    [hb [rb cb ab [[pb lb rtb] lmb]]]].

(** X10: the copy constructor of the base takes the rank, the comparator
    and the allocator of the source and none of its nodes: whatever the
    source holds, the copy is an empty tree, with [begin()] at [end()]. *)
Theorem Kdtree_base_copy_empty (self : node_ptr) t :
  empty (Kdtree_base_copy self t) = true
  /\ begin (Kdtree_base_copy self t) = end_ (Kdtree_base_copy self t)
  /\ get_rank (Kdtree_base_copy self t) = get_rank t
  /\ get_compare (Kdtree_base_copy self t) = get_compare t
  /\ get_node_allocator (Kdtree_base_copy self t) = get_node_allocator t.
Proof.
  unfold empty, begin, end_, get_root, get_leftmost, get_header. simpl.
  rewrite N.eqb_refl. repeat split.
Qed.

(** X11: after [clear()] the tree is empty, [begin()] is at [end()] and the
    root is the header, whatever the tree held and whatever the destruction
    of the nodes did to its members. *)
Theorem clear_empties
    (destroy_all_nodes :
       gmap N Node_base -> Kdtree_base Rank Compare Node_allocator ->
       gmap N Node_base * Implementation Rank Compare Node_allocator)
    (nd : gmap N Node_base) t :
  empty (snd (clear destroy_all_nodes nd t)) = true
  /\ begin (snd (clear destroy_all_nodes nd t))
     = end_ (snd (clear destroy_all_nodes nd t))
  /\ get_begin (snd (clear destroy_all_nodes nd t))
     = get_end (snd (clear destroy_all_nodes nd t))
  /\ end_ (snd (clear destroy_all_nodes nd t)) = end_ t.
Proof.
  unfold clear. destruct (destroy_all_nodes nd t) as [nd' i].
  unfold empty, begin, end_, get_begin, get_end, get_root, get_leftmost,
    get_header. simpl.
  rewrite N.eqb_refl. repeat split.
Qed.

Lemma same_links_refl (nd : gmap N Node_base) : same_links nd nd.
Proof. split; [reflexivity |]. intros p n Hp. exists n. auto. Qed.

Lemma same_links_trans (nd1 nd2 nd3 : gmap N Node_base) :
  same_links nd1 nd2 -> same_links nd2 nd3 -> same_links nd1 nd3.
Proof.
  intros [Hd12 Hl12] [Hd23 Hl23]. split; [congruence |].
  intros p n Hp. destruct (Hl12 p n Hp) as (n2 & Hp2 & Hl & Hr).
  destruct (Hl23 p n2 Hp2) as (n3 & Hp3 & Hl' & Hr').
  exists n3. repeat split; congruence.
Qed.

Lemma same_links_alter (v p : node_ptr) (nd : gmap N Node_base) :
  same_links nd (alter (set_parent v) p nd).
Proof.
  split; [apply dom_alter_L |].
  intros q n Hq. rewrite lookup_alter. case_decide as Hpq.
  - subst q. rewrite Hq. simpl. exists (set_parent v n). auto.
  - exists n. auto.
Qed.

(** A closing [if] of [swap] touches the nodes at one place at most, and
    there the parent pointer only. *)
Lemma relink_same_links w (x : tree_id) :
  same_links (nodes w) (nodes (relink x w)).
Proof.
  unfold relink, store_parent.
  destruct (negb _); [| apply same_links_refl].
  destruct (_ =? header_addr (this w));
    [destruct x; apply same_links_refl |].
  destruct (_ =? header_addr (other w));
    [destruct x; apply same_links_refl |].
  apply same_links_alter.
Qed.

Lemma exchange_end_marker w (x : tree_id) :
  end_marker x (exchange w) = end_marker x w.
Proof.
  split_world w.
  destruct x; cbv -[N.eqb];
    destruct (N.eqb_spec pa ha), (N.eqb_spec pb hb); reflexivity.
Qed.

Lemma relink_end_marker w (x y : tree_id) :
  end_marker y (relink x w) = end_marker y w.
Proof.
  split_world w.
  destruct x, y; cbv -[N.eqb alter];
    repeat (match goal with
            | |- context [?a =? ?b] => destruct (N.eqb_spec a b); simpl
            end); reflexivity.
Qed.

(** X12: [swap] keeps the nodes and their left and right links, and keeps
    the left pointer of each header, the end marker: the only pointers it
    writes are parent, right and leftmost of the two headers and the parent
    of the nodes the closing [if]s reach. *)
Theorem swap_keeps_links w :
  same_links (nodes w) (nodes (swap w))
  /\ forall x, end_marker x (swap w) = end_marker x w.
Proof.
  unfold swap. destruct (empty (this w) && empty (other w)).
  - split; [apply same_links_refl | reflexivity].
  - split.
    + apply same_links_trans with (nodes (relink This (exchange w))).
      * rewrite <- (exchange_nodes w) at 1. apply relink_same_links.
      * apply relink_same_links.
    + intros x. rewrite !relink_end_marker. apply exchange_end_marker.
Qed.

(** X13: [end()] of a tree is its own header before and after [swap]: end
    iterators do not follow the elements.  When one tree at least holds
    elements, [begin()] of each tree is what [begin()] of the other one was,
    or its own [end()] where the other tree was empty. *)
Theorem swap_begin_end w (x : tree_id) :
  end_ (tree x (swap w)) = end_ (tree x w)
  /\ begin (tree x (swap w))
     = if empty (this w) && empty (other w) then begin (tree x w)
       else if empty (tree (opposite x) w) then end_ (tree x w)
       else begin (tree (opposite x) w).
Proof.
  destruct (empty (this w) && empty (other w)) eqn:Hboth.
  - rewrite swap_both_empty by exact Hboth. split; reflexivity.
  - destruct (swap_members w x Hboth) as (_ & _ & _ & Hh).
    split; [exact Hh |].
    exact (swap_load w x F_leftmost Hboth).
Qed.

(** Two trees with the same members and the same header are the same. *)
Lemma Kdtree_base_ext t1 t2 :
  header_addr t1 = header_addr t2 ->
  get_rank t1 = get_rank t2 ->
  get_compare t1 = get_compare t2 ->
  get_node_allocator t1 = get_node_allocator t2 ->
  (forall f, get_field f (header (m_impl t1))
             = get_field f (header (m_impl t2))) ->
  left (links (header (m_impl t1))) = left (links (header (m_impl t2))) ->
  t1 = t2.
Proof.
  destruct t1 as [h1 [r1 c1 a1 [[p1 l1 rt1] lm1]]].
  destruct t2 as [h2 [r2 c2 a2 [[p2 l2 rt2] lm2]]].
  unfold get_rank, get_compare, get_node_allocator. simpl.
  intros -> -> -> -> Hf ->.
  pose proof (Hf F_parent) as Hp. pose proof (Hf F_right) as Hr.
  pose proof (Hf F_leftmost) as Hl. simpl in Hp, Hr, Hl.
  now subst.
Qed.

Lemma opposite_involutive (x : tree_id) : opposite (opposite x) = x.
Proof. destruct x; reflexivity. Qed.

Lemma swap_end_marker w (x : tree_id) :
  end_marker x (swap w) = end_marker x w.
Proof.
  unfold swap. destruct (empty (this w) && empty (other w));
    [reflexivity |].
  rewrite !relink_end_marker. apply exchange_end_marker.
Qed.

Lemma relink_tree w (x y : tree_id) :
  load x F_parent w = header_addr (tree x w)
  \/ load x F_parent w <> header_addr (tree (opposite x) w) ->
  tree y (relink x w) = tree y w.
Proof.
  intros Hframe.
  destruct (N.eq_dec (load x F_parent w) (header_addr (tree x w)))
    as [Heq | Hown].
  - rewrite relink_at_header by exact Heq. reflexivity.
  - destruct Hframe as [Heq | Hopp]; [contradiction |].
    rewrite relink_at_node by assumption. destruct y; reflexivity.
Qed.

Lemma relink_nodes w (x : tree_id) :
  load x F_parent w = header_addr (tree x w)
  \/ load x F_parent w <> header_addr (tree (opposite x) w) ->
  nodes (relink x w)
  = if load x F_parent w =? header_addr (tree x w) then nodes w
    else alter (set_parent (header_addr (tree x w))) (load x F_parent w)
           (nodes w).
Proof.
  intros Hframe.
  destruct (N.eqb_spec (load x F_parent w) (header_addr (tree x w)))
    as [Heq | Hown].
  - rewrite relink_at_header by exact Heq. reflexivity.
  - destruct Hframe as [Heq | Hopp]; [contradiction |].
    rewrite relink_at_node by assumption. reflexivity.
Qed.

(** The nodes after [swap], when no root is the header of the other tree:
    each tree has taken over the root of the other one. *)
Lemma swap_nodes w :
  empty (this w) && empty (other w) = false ->
  (forall x, empty (tree x w) = false ->
             get_root (tree x w) <> header_addr (tree (opposite x) w)) ->
  nodes (swap w) = adopt Other w (adopt This w (nodes w)).
Proof.
  intros Hboth Hroots. unfold swap. rewrite Hboth.
  assert (load This F_parent (exchange w)
          = header_addr (tree This (exchange w))
          \/ load This F_parent (exchange w)
             <> header_addr (tree (opposite This) (exchange w))) as Hf1.
  { destruct (exchange_root w This Hboth) as [Heq | (_ & _ & Hne)];
      [left; exact Heq | right; exact Hne]. }
  assert (forall y, tree y (relink This (exchange w)) = tree y (exchange w))
    as Htree.
  { intros y. apply relink_tree. exact Hf1. }
  assert (forall y f, load y f (relink This (exchange w))
                      = load y f (exchange w)) as Hload.
  { intros y f. unfold load. rewrite Htree. reflexivity. }
  assert (load Other F_parent (relink This (exchange w))
          = header_addr (tree Other (relink This (exchange w)))
          \/ load Other F_parent (relink This (exchange w))
             <> header_addr
                  (tree (opposite Other) (relink This (exchange w))))
    as Hf2.
  { rewrite Hload, !Htree.
    destruct (exchange_root w Other Hboth) as [Heq | (_ & _ & Hne)];
      [left; exact Heq | right; exact Hne]. }
  rewrite (relink_nodes _ Other Hf2), Hload, Htree.
  rewrite (relink_nodes _ This Hf1), exchange_nodes.
  rewrite !(exchange_load w _ F_parent Hboth).
  destruct (exchange_members w This) as (_ & _ & _ & ->).
  destruct (exchange_members w Other) as (_ & _ & _ & ->).
  unfold adopt. cbn [opposite tree].
  pose proof (Hroots This) as HrT. pose proof (Hroots Other) as HrO.
  cbn [opposite tree] in HrT, HrO.
  change (get_root (this w)) with (load This F_parent w) in *.
  change (get_root (other w)) with (load Other F_parent w) in *.
  destruct (empty (this w)) eqn:HeT, (empty (other w)) eqn:HeO;
    try discriminate; rewrite ?N.eqb_refl.
  - apply N.eqb_neq in HrO; [| reflexivity]. rewrite HrO. reflexivity.
  - apply N.eqb_neq in HrT; [| reflexivity]. rewrite HrT. reflexivity.
  - apply N.eqb_neq in HrO; [| reflexivity].
    apply N.eqb_neq in HrT; [| reflexivity].
    rewrite HrO, HrT. reflexivity.
Qed.

Lemma world_ext w1 w2 :
  nodes w1 = nodes w2 -> this w1 = this w2 -> other w1 = other w2 ->
  w1 = w2.
Proof. destruct w1, w2. simpl. now intros -> -> ->. Qed.

(** What the header invariant of two trees apart gives on their roots. *)
Lemma invariant_roots w :
  apart w -> header_invariant This w -> header_invariant Other w ->
  (forall x, empty (tree x w) = false ->
     exists n, nodes w !! get_root (tree x w) = Some n
               /\ parent n = header_addr (tree x w))
  /\ (forall x y, empty (tree x w) = false ->
        get_root (tree x w) <> header_addr (tree y w))
  /\ (empty (this w) = false -> empty (other w) = false ->
      get_root (this w) <> get_root (other w))
  /\ (forall x f, empty (tree x w) = true ->
        load x f w = header_addr (tree x w)).
Proof.
  intros (Hab & HnT & HnO) HiT HiO.
  assert (forall x, header_invariant x w) as Hinv by (intros []; assumption).
  assert (forall x, empty (tree x w) = false ->
            exists n, nodes w !! get_root (tree x w) = Some n
                      /\ parent n = header_addr (tree x w)) as Hroot.
  { intros x Hx. specialize (Hinv x). unfold header_invariant in Hinv.
    rewrite Hx in Hinv. exact Hinv. }
  split; [exact Hroot | split; [| split]].
  - intros x y Hx Heq. destruct (Hroot x Hx) as (n & Hn & _).
    rewrite Heq in Hn. destruct y; cbn [tree] in Hn; congruence.
  - intros HT HO Heq.
    destruct (Hroot This HT) as (n & Hn & Hp).
    destruct (Hroot Other HO) as (n' & Hn' & Hp').
    cbn [tree] in *. rewrite Heq in Hn. congruence.
  - intros x f Hx. specialize (Hinv x). unfold header_invariant in Hinv.
    rewrite Hx in Hinv. apply Hinv.
Qed.

Lemma adopt_lookup_None w (x : tree_id) (nd : gmap N Node_base)
    (j : node_ptr) :
  nd !! j = None -> adopt x w nd !! j = None.
Proof.
  intros Hj. unfold adopt. destruct (empty _); [exact Hj |].
  apply lookup_alter_None. exact Hj.
Qed.

(** Emptiness goes with the elements. *)
Lemma swap_empty w (x : tree_id) :
  empty (this w) && empty (other w) = false ->
  (forall y, empty (tree y w) = false ->
             get_root (tree y w) <> header_addr (tree (opposite y) w)) ->
  empty (tree x (swap w)) = empty (tree (opposite x) w).
Proof.
  intros Hboth Hroots.
  change (empty (tree x (swap w)))
    with (load x F_parent (swap w) =? header_addr (tree x (swap w))).
  rewrite (swap_load w x F_parent Hboth).
  destruct (swap_members w x Hboth) as (_ & _ & _ & ->).
  destruct (empty (tree (opposite x) w)) eqn:Hopp.
  - apply N.eqb_refl.
  - apply N.eqb_neq. pose proof (Hroots (opposite x) Hopp) as Hne.
    rewrite opposite_involutive in Hne. exact Hne.
Qed.

(** The header invariant is kept by [swap]. *)
Lemma swap_well_formed w :
  apart w -> header_invariant This w -> header_invariant Other w ->
  apart (swap w)
  /\ header_invariant This (swap w) /\ header_invariant Other (swap w).
Proof.
  intros Hap HiT HiO.
  destruct (empty (this w) && empty (other w)) eqn:Hboth.
  { rewrite swap_both_empty by exact Hboth. auto. }
  destruct (invariant_roots w Hap HiT HiO) as (Hroot & Hhdr & Hdiff & Hst).
  assert (forall y, empty (tree y w) = false ->
            get_root (tree y w) <> header_addr (tree (opposite y) w))
    as Hroots by (intros y Hy; apply Hhdr; exact Hy).
  pose proof (swap_nodes w Hboth Hroots) as Hnodes.
  assert (forall x, header_addr (tree x (swap w)) = header_addr (tree x w))
    as Hh by (intros x; apply (swap_members w x Hboth)).
  destruct Hap as (Hab & HnT & HnO).
  split.
  { pose proof (Hh This) as HhT. pose proof (Hh Other) as HhO.
    cbn [tree] in HhT, HhO. unfold apart. rewrite HhT, HhO, Hnodes.
    repeat split; [exact Hab | |]; apply adopt_lookup_None;
      apply adopt_lookup_None; assumption. }
  assert (forall x, header_invariant x (swap w)) as Hgoal;
    [| split; apply Hgoal].
  intros x. unfold header_invariant.
  rewrite (swap_empty w x Hboth Hroots).
  destruct (empty (tree (opposite x) w)) eqn:Hopp.
  - intros f. rewrite (swap_load w x f Hboth), Hopp, Hh. reflexivity.
  - destruct (Hroot (opposite x) Hopp) as (n & Hn & Hp).
    exists (set_parent (header_addr (tree x w)) n).
    rewrite (swap_load w x F_parent Hboth), Hopp, Hh.
    change (load (opposite x) F_parent w)
      with (get_root (tree (opposite x) w)).
    split; [| reflexivity].
    rewrite Hnodes. unfold adopt.
    destruct x; cbn [opposite tree] in *.
    + rewrite Hopp.
      destruct (empty (this w)) eqn:HeT.
      * rewrite lookup_alter_eq, Hn. reflexivity.
      * rewrite lookup_alter_ne
          by (apply Hdiff; [reflexivity | exact Hopp]).
        rewrite lookup_alter_eq, Hn. reflexivity.
    + rewrite Hopp, lookup_alter_eq.
      destruct (empty (other w)) eqn:HeO.
      * rewrite Hn. reflexivity.
      * rewrite lookup_alter_ne, Hn; [reflexivity |].
        intros Heq. apply (Hdiff Hopp eq_refl). symmetry. exact Heq.
Qed.

(** X14: [swap] keeps the header invariant.  Two trees that are apart, each
    with its root pointing back to its header or, when empty, with its header
    pointing to itself, are such trees again after [swap]. *)
Theorem swap_keeps_header_invariant w :
  apart w -> header_invariant This w -> header_invariant Other w ->
  apart (swap w)
  /\ header_invariant This (swap w) /\ header_invariant Other (swap w).
Proof. exact (swap_well_formed w). Qed.

Lemma alter_set_parent_back (nd : gmap N Node_base) (p h h' : node_ptr)
    (n : Node_base) :
  nd !! p = Some n -> parent n = h ->
  alter (set_parent h) p (alter (set_parent h') p nd) = nd.
Proof.
  intros Hp Hn. apply map_eq. intros j.
  destruct (N.eq_dec p j) as [<- | Hj].
  - rewrite !lookup_alter_eq, Hp. simpl. f_equal.
    destruct n as [pn ln rn]. simpl in Hn. subst h. reflexivity.
  - rewrite !lookup_alter_ne by exact Hj. reflexivity.
Qed.

(** After [swap], what a tree would take over is its former root. *)
Lemma adopt_swap w (x : tree_id) (nd : gmap N Node_base) :
  empty (this w) && empty (other w) = false ->
  (forall y, empty (tree y w) = false ->
             get_root (tree y w) <> header_addr (tree (opposite y) w)) ->
  adopt x (swap w) nd
  = if empty (tree x w) then nd
    else alter (set_parent (header_addr (tree x w))) (get_root (tree x w))
           nd.
Proof.
  intros Hboth Hroots. unfold adopt.
  rewrite (swap_empty w (opposite x) Hboth Hroots), opposite_involutive.
  destruct (empty (tree x w)) eqn:Hx; [reflexivity |].
  destruct (swap_members w x Hboth) as (_ & _ & _ & ->).
  change (get_root (tree (opposite x) (swap w)))
    with (load (opposite x) F_parent (swap w)).
  rewrite (swap_load w (opposite x) F_parent Hboth), opposite_involutive, Hx.
  reflexivity.
Qed.

Lemma swap_not_both_empty w :
  empty (this w) && empty (other w) = false ->
  (forall y, empty (tree y w) = false ->
             get_root (tree y w) <> header_addr (tree (opposite y) w)) ->
  empty (this (swap w)) && empty (other (swap w)) = false.
Proof.
  intros Hboth Hroots.
  pose proof (swap_empty w This Hboth Hroots) as HT.
  pose proof (swap_empty w Other Hboth Hroots) as HO.
  cbn [opposite tree] in HT, HO. rewrite HT, HO, andb_comm. exact Hboth.
Qed.

Lemma swap_swap_tree w (x : tree_id) :
  apart w -> header_invariant This w -> header_invariant Other w ->
  empty (this w) && empty (other w) = false ->
  tree x (swap (swap w)) = tree x w.
Proof.
  intros Hap HiT HiO Hboth.
  destruct (invariant_roots w Hap HiT HiO) as (_ & Hhdr & _ & Hst).
  assert (forall y, empty (tree y w) = false ->
            get_root (tree y w) <> header_addr (tree (opposite y) w))
    as Hroots by (intros y Hy; apply Hhdr; exact Hy).
  pose proof (swap_not_both_empty w Hboth Hroots) as Hboth'.
  destruct (swap_members (swap w) x Hboth') as (Hr' & Hc' & Ha' & Hh').
  destruct (swap_members w (opposite x) Hboth) as (Hr & Hc & Ha & _).
  destruct (swap_members w x Hboth) as (_ & _ & _ & Hh).
  rewrite opposite_involutive in Hr, Hc, Ha.
  apply Kdtree_base_ext; try congruence.
  - intros f.
    change (load x f (swap (swap w)) = load x f w).
    rewrite (swap_load (swap w) x f Hboth').
    rewrite (swap_empty w (opposite x) Hboth Hroots), opposite_involutive.
    rewrite (swap_load w (opposite x) f Hboth), opposite_involutive.
    destruct (empty (tree x w)) eqn:Hx; [| reflexivity].
    rewrite Hh. symmetry. apply Hst. exact Hx.
  - change (end_marker x (swap (swap w)) = end_marker x w).
    now rewrite !swap_end_marker.
Qed.

(** X15: [swap] undoes itself.  On two trees that are apart and keep the
    header invariant, a second [swap] restores both trees and every node. *)
Theorem swap_involutive w :
  apart w -> header_invariant This w -> header_invariant Other w ->
  swap (swap w) = w.
Proof.
  intros Hap HiT HiO.
  destruct (empty (this w) && empty (other w)) eqn:Hboth.
  { now rewrite !swap_both_empty by (rewrite ?swap_both_empty; assumption). }
  destruct (invariant_roots w Hap HiT HiO) as (Hroot & Hhdr & Hdiff & Hst).
  assert (forall y, empty (tree y w) = false ->
            get_root (tree y w) <> header_addr (tree (opposite y) w))
    as Hroots by (intros y Hy; apply Hhdr; exact Hy).
  destruct (swap_well_formed w Hap HiT HiO) as (Hap' & HiT' & HiO').
  destruct (invariant_roots (swap w) Hap' HiT' HiO') as (_ & Hhdr' & _ & _).
  assert (forall y, empty (tree y (swap w)) = false ->
            get_root (tree y (swap w))
            <> header_addr (tree (opposite y) (swap w)))
    as Hroots' by (intros y Hy; apply Hhdr'; exact Hy).
  pose proof (swap_not_both_empty w Hboth Hroots) as Hboth'.
  apply world_ext.
  - rewrite (swap_nodes (swap w) Hboth' Hroots').
    rewrite !(adopt_swap w _ _ Hboth Hroots).
    rewrite (swap_nodes w Hboth Hroots). unfold adopt.
    cbn [opposite tree].
    destruct (empty (this w)) eqn:HeT, (empty (other w)) eqn:HeO;
      try discriminate.
    + destruct (Hroot Other HeO) as (n & Hn & Hp).
      exact (alter_set_parent_back _ _ _ _ n Hn Hp).
    + destruct (Hroot This HeT) as (n & Hn & Hp).
      exact (alter_set_parent_back _ _ _ _ n Hn Hp).
    + destruct (Hroot This HeT) as (na & Hna & Hpa).
      destruct (Hroot Other HeO) as (nb & Hnb & Hpb).
      cbn [tree] in *.
      assert (get_root (this w) <> get_root (other w)) as Hne
        by (apply Hdiff; reflexivity).
      rewrite (alter_set_parent_back _ (get_root (this w)) _ _ na);
        [| rewrite lookup_alter_ne by (symmetry; exact Hne); exact Hna
         | exact Hpa].
      exact (alter_set_parent_back _ _ _ _ nb Hnb Hpb).
  - exact (swap_swap_tree w This Hap HiT HiO Hboth).
  - exact (swap_swap_tree w Other Hap HiT HiO Hboth).
Qed.

Lemma tree_flip w (x : tree_id) : tree x (flip w) = tree (opposite x) w.
Proof. destruct x; reflexivity. Qed.

Lemma adopt_flip w (x : tree_id) (nd : gmap N Node_base) :
  adopt x (flip w) nd = adopt (opposite x) w nd.
Proof. destruct x; reflexivity. Qed.

Lemma swap_flip_tree w (x : tree_id) :
  empty (this w) && empty (other w) = false ->
  tree x (swap (flip w)) = tree (opposite x) (swap w).
Proof.
  intros Hboth.
  assert (empty (this (flip w)) && empty (other (flip w)) = false)
    as HbothF by (cbn [flip this other]; now rewrite andb_comm).
  destruct (swap_members (flip w) x HbothF) as (Hr' & Hc' & Ha' & Hh').
  destruct (swap_members w (opposite x) Hboth) as (Hr & Hc & Ha & Hh).
  rewrite tree_flip in Hr', Hc', Ha', Hh'.
  apply Kdtree_base_ext; try congruence.
  - intros f.
    change (load x f (swap (flip w)) = load (opposite x) f (swap w)).
    rewrite (swap_load (flip w) x f HbothF),
      (swap_load w (opposite x) f Hboth).
    rewrite !tree_flip. destruct x; reflexivity.
  - change (end_marker x (swap (flip w))
            = end_marker (opposite x) (swap w)).
    rewrite !swap_end_marker. destruct x; reflexivity.
Qed.

(** X16: it does not matter which of the two trees [swap] is called on.  On
    two trees that are apart and keep the header invariant, the call on the
    second tree with the first as argument leaves what the call on the first
    with the second as argument leaves. *)
Theorem swap_symmetric w :
  apart w -> header_invariant This w -> header_invariant Other w ->
  swap (flip w) = flip (swap w).
Proof.
  intros Hap HiT HiO.
  destruct (empty (this w) && empty (other w)) eqn:Hboth.
  { rewrite (swap_both_empty w Hboth).
    apply swap_both_empty. cbn [flip this other].
    now rewrite andb_comm. }
  destruct (invariant_roots w Hap HiT HiO) as (_ & Hhdr & Hdiff & _).
  assert (forall y, empty (tree y w) = false ->
            get_root (tree y w) <> header_addr (tree (opposite y) w))
    as Hroots by (intros y Hy; apply Hhdr; exact Hy).
  assert (empty (this (flip w)) && empty (other (flip w)) = false)
    as HbothF by (cbn [flip this other]; now rewrite andb_comm).
  assert (forall y, empty (tree y (flip w)) = false ->
            get_root (tree y (flip w))
            <> header_addr (tree (opposite y) (flip w))) as HrootsF.
  { intros y. rewrite !tree_flip. apply Hhdr. }
  apply world_ext.
  - rewrite (swap_nodes (flip w) HbothF HrootsF), !adopt_flip.
    cbn [flip nodes opposite].
    rewrite (swap_nodes w Hboth Hroots). unfold adopt.
    cbn [opposite tree].
    destruct (empty (this w)) eqn:HeT, (empty (other w)) eqn:HeO;
      try reflexivity.
    apply alter_alter_ne. intros Heq.
    apply (Hdiff eq_refl eq_refl). symmetry. exact Heq.
  - exact (swap_flip_tree w This Hboth).
  - exact (swap_flip_tree w Other Hboth).
Qed.

End BaseFurther.

Lemma one_empty_tree_well_formed :
  Base.apart Sample.one_empty_tree
  /\ Base.header_invariant Base.This Sample.one_empty_tree
  /\ Base.header_invariant Base.Other Sample.one_empty_tree.
Proof.
  split; [| split].
  - split; [vm_compute; lia | split; reflexivity].
  - intros f. destruct f; reflexivity.
  - exists (Base.mk_Node_base 20 0 0). split; reflexivity.
Defined.

Lemma two_trees_well_formed :
  Base.apart Sample.two_trees
  /\ Base.header_invariant Base.This Sample.two_trees
  /\ Base.header_invariant Base.Other Sample.two_trees.
Proof.
  split; [| split].
  - split; [vm_compute; lia | split; reflexivity].
  - exists (Base.mk_Node_base 10 0 9). split; reflexivity.
  - exists (Base.mk_Node_base 20 0 0). split; reflexivity.
Defined.

Lemma swap_keeps_header_invariant_witness :
  (Base.apart Sample.one_empty_tree
   /\ Base.header_invariant Base.This Sample.one_empty_tree
   /\ Base.header_invariant Base.Other Sample.one_empty_tree)
  /\ Base.apart (Base.swap Sample.one_empty_tree)
  /\ Base.header_invariant Base.This (Base.swap Sample.one_empty_tree)
  /\ Base.header_invariant Base.Other (Base.swap Sample.one_empty_tree).
Proof.
  split; [exact one_empty_tree_well_formed |].
  destruct one_empty_tree_well_formed as (Hap & HiT & HiO).
  exact (swap_keeps_header_invariant Sample.one_empty_tree Hap HiT HiO).
Defined.

Lemma swap_involutive_witness :
  (Base.apart Sample.two_trees
   /\ Base.header_invariant Base.This Sample.two_trees
   /\ Base.header_invariant Base.Other Sample.two_trees)
  /\ Base.swap (Base.swap Sample.two_trees) = Sample.two_trees.
Proof.
  split; [exact two_trees_well_formed |].
  destruct two_trees_well_formed as (Hap & HiT & HiO).
  exact (swap_involutive Sample.two_trees Hap HiT HiO).
Defined.

Lemma swap_symmetric_witness :
  (Base.apart Sample.two_trees
   /\ Base.header_invariant Base.This Sample.two_trees
   /\ Base.header_invariant Base.Other Sample.two_trees)
  /\ Base.swap (Base.flip Sample.two_trees)
     = Base.flip (Base.swap Sample.two_trees).
Proof.
  split; [exact two_trees_well_formed |].
  destruct two_trees_well_formed as (Hap & HiT & HiO).
  exact (swap_symmetric Sample.two_trees Hap HiT HiO).
Defined.

(** After the swap the tree at 10 holds the node 16 and the tree at 20 the
    nodes 8 and 9; the link from 8 to 9 is as it was. *)
Example swap_two_trees :
  Base.nodes (Base.swap Sample.two_trees) !! 16
  = Some (Base.mk_Node_base 10 0 0)
  /\ Base.nodes (Base.swap Sample.two_trees) !! 8
     = Some (Base.mk_Node_base 20 0 9)
  /\ Base.nodes (Base.swap Sample.two_trees) !! 9
     = Some (Base.mk_Node_base 8 0 0)
  /\ Base.begin (Base.this (Base.swap Sample.two_trees)) = 16
  /\ Base.begin (Base.other (Base.swap Sample.two_trees)) = 8
  /\ Base.get_rightmost (Base.other (Base.swap Sample.two_trees)) = 9.
Proof. vm_compute. repeat split. Qed.

(** ** More on the facade containers *)

Section FacadeFurther.
Context {Compare BalancingPolicy Alloc : Type}.
Context {Compare_default : DefaultCtor Compare}
  {BalancingPolicy_default : DefaultCtor BalancingPolicy}
  {Alloc_default : DefaultCtor Alloc}
  {Dynamic_rank_default : DefaultCtor Dynamic_rank}.
Variable Kdtree_copy :
  forall Rank : Type,
    node_ptr -> Base.Kdtree_base Rank Compare Alloc -> bool ->
    outcome (Base.Kdtree_base Rank Compare Alloc).
Variable Relaxed_kdtree_copy :
  forall Rank : Type,
    node_ptr -> Facade.Relaxed_kdtree Compare BalancingPolicy Alloc Rank ->
    outcome (Facade.Relaxed_kdtree Compare BalancingPolicy Alloc Rank).

Import Base Facade.


(** X18: a container that leaves a constructor other than the copy
    constructor is empty, with [begin()] at [end()], whatever it was handed;
    this holds for the four facade containers alike. *)
Theorem fresh_container_is_empty (n : dimension_type) (self : node_ptr) :
  (forall args t, frozen_pointset_args_is_copy args = false ->
     frozen_pointset (n := n) Kdtree_copy self args = Returned t ->
     empty t = true /\ begin t = end_ t)
  /\ (forall args t, frozen_pointset0_args_is_copy args = false ->
        frozen_pointset0 Kdtree_copy self args = Returned t ->
        empty t = true /\ begin t = end_ t)
  /\ (forall args t, pointmap_args_is_copy args = false ->
        pointmap (n := n) Relaxed_kdtree_copy self args = Returned t ->
        empty (rk_base t) = true /\ begin (rk_base t) = end_ (rk_base t))
  /\ (forall args t, runtime_args_is_copy args = false ->
        pointmap0 Relaxed_kdtree_copy self args = Returned t ->
        empty (rk_base t) = true /\ begin (rk_base t) = end_ (rk_base t)).
Proof.
  assert (forall Rank (Hd : DefaultCtor Rank) (r : option Rank)
            (c : option Compare) (a : option Alloc),
            empty (Kdtree_base_ctor (Rank := Rank) self r c a) = true
            /\ begin (Kdtree_base_ctor (Rank := Rank) self r c a)
               = end_ (Kdtree_base_ctor (Rank := Rank) self r c a))
    as Hfresh.
  { intros Rank Hd r c a.
    unfold empty, begin, end_, get_root, get_leftmost, get_header. simpl.
    now rewrite N.eqb_refl. }
  split; [| split; [| split]]; intros args t Hcopy Hret.
  - destruct args; try discriminate; injection Hret as <-; apply Hfresh.
  - destruct args; try discriminate; injection Hret as <-; apply Hfresh.
  - destruct args; try discriminate; injection Hret as <-; apply Hfresh.
  - destruct args as [ | d | d c | d c b | d c b a | | | | ];
      try discriminate; simpl in Hret;
      try (destruct (check_rank_argument d); simpl in Hret;
           try discriminate);
      injection Hret as <-; apply Hfresh.
Qed.

(** X19: a constructor of [pointmap<0>] other than the copy constructor
    throws exactly when it is handed the rank 0, and then throws
    [InvalidRank]; when it returns, the dimension of the container is the
    rank it was handed, or that of [Dynamic_rank()] when it was handed
    none. *)
Theorem pointmap0_rank_check (self : node_ptr) (args : runtime_args) :
  runtime_args_is_copy args = false ->
  match pointmap0 Relaxed_kdtree_copy self args with
  | Thrown e => e = InvalidRank /\ runtime_args_dim args = Some 0
  | Returned t =>
      runtime_args_dim args <> Some 0
      /\ rank_call (get_rank (rk_base t))
         = rank_call (default (default_ctor : Dynamic_rank)
                        (mk_Dynamic_rank <$> runtime_args_dim args))
  end.
Proof.
  intros Hcopy.
  destruct args as [ | d | d c | d c b | d c b a | | | | ];
    try discriminate; simpl;
    try (unfold check_rank_argument;
         destruct (N.eqb_spec d 0) as [-> | Hd]; simpl);
    split; try reflexivity; try discriminate; congruence.
Qed.

(** X20: the comparator, the balancing policy and the allocator that a
    constructor of [pointmap<0>] is handed are those the container holds;
    the ones it is not handed are default-constructed. *)
Theorem pointmap0_forwards_collaborators (self : node_ptr)
    (args : runtime_args)
    (t : Relaxed_kdtree Compare BalancingPolicy Alloc Dynamic_rank) :
  runtime_args_is_copy args = false ->
  pointmap0 Relaxed_kdtree_copy self args = Returned t ->
  get_compare (rk_base t) = default default_ctor (runtime_args_compare args)
  /\ rk_balancing t = default default_ctor (runtime_args_policy args)
  /\ get_node_allocator (rk_base t)
     = default default_ctor (runtime_args_alloc args).
Proof.
  intros Hcopy Hret.
  destruct args as [ | d | d c | d c b | d c b a | | | | ];
    try discriminate; simpl in Hret;
    try (destruct (check_rank_argument d); simpl in Hret;
         try discriminate);
    injection Hret as <-; repeat split.
Qed.

End FacadeFurther.

Lemma fresh_container_is_empty_witness :
  Facade.runtime_args_is_copy Sample.rank_3_args = false
  /\ exists t,
       Facade.pointmap0 (Compare_default := Sample.label_default)
         (BalancingPolicy_default := Sample.label_default)
         (Alloc_default := Sample.label_default)
         (Dynamic_rank_default := mk_Dynamic_rank 1)
         Sample.plain_Relaxed_kdtree_copy 64 Sample.rank_3_args
       = Returned t
       /\ Base.empty (Facade.rk_base t) = true
       /\ Base.begin (Facade.rk_base t) = Base.end_ (Facade.rk_base t).
Proof.
  split; [reflexivity |]. eexists. split; [reflexivity |].
  apply (proj2 (proj2 (proj2
           (fresh_container_is_empty
              (Compare_default := Sample.label_default)
              (BalancingPolicy_default := Sample.label_default)
              (Alloc_default := Sample.label_default)
              (Dynamic_rank_default := mk_Dynamic_rank 1)
              Sample.plain_Kdtree_copy Sample.plain_Relaxed_kdtree_copy
              2 64)))
           Sample.rank_3_args); reflexivity.
Defined.

Lemma pointmap0_rank_check_witness :
  Facade.runtime_args_is_copy Sample.rank_0_args = false
  /\ match
       Facade.pointmap0 (Compare_default := Sample.label_default)
         (BalancingPolicy_default := Sample.label_default)
         (Alloc_default := Sample.label_default)
         (Dynamic_rank_default := mk_Dynamic_rank 1)
         Sample.plain_Relaxed_kdtree_copy 64 Sample.rank_0_args
     with
     | Thrown e =>
         e = InvalidRank
         /\ Facade.runtime_args_dim Sample.rank_0_args = Some 0
     | Returned t =>
         Facade.runtime_args_dim Sample.rank_0_args <> Some 0
         /\ rank_call (Base.get_rank (Facade.rk_base t))
            = rank_call
                (default (mk_Dynamic_rank 1)
                   (mk_Dynamic_rank
                    <$> Facade.runtime_args_dim Sample.rank_0_args))
     end.
Proof.
  split; [reflexivity |].
  exact (pointmap0_rank_check
           (Compare_default := Sample.label_default)
           (BalancingPolicy_default := Sample.label_default)
           (Alloc_default := Sample.label_default)
           (Dynamic_rank_default := mk_Dynamic_rank 1)
           Sample.plain_Relaxed_kdtree_copy 64 Sample.rank_0_args
           eq_refl).
Defined.

Lemma pointmap0_forwards_collaborators_witness :
  Facade.runtime_args_is_copy Sample.policy_args = false
  /\ exists t,
       Facade.pointmap0 (Compare_default := Sample.label_default)
         (BalancingPolicy_default := Sample.label_default)
         (Alloc_default := Sample.label_default)
         (Dynamic_rank_default := mk_Dynamic_rank 1)
         Sample.plain_Relaxed_kdtree_copy 64 Sample.policy_args
       = Returned t
       /\ Base.get_compare (Facade.rk_base t) = 1
       /\ Facade.rk_balancing t = 2
       /\ Base.get_node_allocator (Facade.rk_base t) = 0.
Proof.
  split; [reflexivity |]. eexists. split; [reflexivity |].
  apply (pointmap0_forwards_collaborators
           (Compare_default := Sample.label_default)
           (BalancingPolicy_default := Sample.label_default)
           (Alloc_default := Sample.label_default)
           (Dynamic_rank_default := mk_Dynamic_rank 1)
           Sample.plain_Relaxed_kdtree_copy 64 Sample.policy_args);
    reflexivity.
Defined.
